(** * txwatch: the transaction monitoring engine

    A shallow embedding of [internal/etx/etx.go] and of the HTTP handlers of
    the [main] package, and the properties of the monitoring engine proved
    over it.

    Conventions.
    - Go's [int] is 64 bits wide (the image is built for amd64); it is a [Z]
      kept in range by [GoInt.wrap].
    - Go's package-level variables [DB] and [Clients] and the process
      environment are passed explicitly; [DB] is threaded as state.
    - A Go [error] is a value of the type [error] below, tagged by the place
      that created it.
    - The store (gorm over PostgreSQL) and the chain clients (go-ethereum)
      are collaborators: the store is a finite map from the primary key to
      the row, a chain client is a pair of query functions. *)

From Stdlib Require Import ZArith Lia Ascii.
From stdpp Require Import gmap strings list fin_maps.

Local Open Scope Z_scope.

(** ** Go's 64-bit [int] *)

Module GoInt.

Definition int_min : Z := - 2 ^ 63.
Definition int_max : Z := 2 ^ 63 - 1.

(** Two's complement wrap-around of a mathematical integer. *)
Definition wrap (z : Z) : Z := (z + 2 ^ 63) mod 2 ^ 64 - 2 ^ 63.

Definition add (x y : Z) : Z := wrap (x + y).
Definition sub (x y : Z) : Z := wrap (x - y).
Definition mul (x y : Z) : Z := wrap (x * y).

Definition in_range (z : Z) : Prop := int_min <= z <= int_max.

End GoInt.

(** ** [strconv.Atoi] and [os.Getenv] (Go standard library) *)

Module strconv.

(** The two [NumError] causes of the [strconv] package. *)
Inductive NumError := ErrSyntax | ErrRange.

#[global] Instance NumError_eq_dec : EqDecision NumError.
Proof. solve_decision. Defined.

Definition digit (c : ascii) : option Z :=
  let n := Z.of_N (N_of_ascii c) in
  if (48 <=? n) && (n <=? 57) then Some (n - 48) else None.

Definition maxUint64 : Z := 2 ^ 64 - 1.

(** The digit loop of [ParseUint(s, 10, 64)]: a character that is not a
    decimal digit is a syntax error with value 0; an overflow stops the loop
    at once with the largest value and a range error. *)
Fixpoint parse_digits (s : string) (n : Z) : Z * option NumError :=
  match s with
  | EmptyString => (n, None)
  | String c s' =>
      match digit c with
      | None => (0, Some ErrSyntax)
      | Some d =>
          if maxUint64 / 10 + 1 <=? n then (maxUint64, Some ErrRange)
          else
            let n1 := n * 10 + d in
            if maxUint64 <? n1 then (maxUint64, Some ErrRange)
            else parse_digits s' n1
      end
  end.

Definition ParseUint (s : string) : Z * option NumError :=
  match s with
  | EmptyString => (0, Some ErrSyntax)
  | _ => parse_digits s 0
  end.

(** [ParseInt(s, 10, 0)]: an optional sign, then [ParseUint]; a value that
    does not fit is replaced by the nearest bound, with a range error. *)
Definition ParseInt (s : string) : Z * option NumError :=
  match s with
  | EmptyString => (0, Some ErrSyntax)
  | String c s' =>
      let neg := bool_decide (c = "-"%char) in
      let body := if bool_decide (c = "+"%char) || neg then s' else s in
      match ParseUint body with
      | (_, Some ErrSyntax) => (0, Some ErrSyntax)
      | (un, _) =>
          let cutoff := 2 ^ 63 in
          if negb neg && (cutoff <=? un) then (cutoff - 1, Some ErrRange)
          else if neg && (cutoff <? un) then (- cutoff, Some ErrRange)
          else (if neg then - un else un, None)
      end
  end.

(** [Atoi] is [ParseInt(s, 10, 0)] converted to [int]; its fast path for
    short strings computes the same results. *)
Definition Atoi (s : string) : Z * option NumError := ParseInt s.

End strconv.

Module os.

(** The process environment; [Getenv] of an unset variable is the empty
    string. *)
Definition Getenv (env : gmap string string) (key : string) : string :=
  default "" (env !! key).

End os.

(** ** Package [etx] *)

Module etx.

(** Go [error] values, by origin: [errors.New] called in this package, an
    error returned by a chain client, an error returned by the store, and an
    error of reading or decoding a request body.  [Error_msg] is the
    [Error()] method. *)
Inductive error :=
  | errors_New (msg : string)
  | clientError (msg : string)
  | storeError (msg : string)
  | requestError (msg : string).

Definition Error_msg (e : error) : string :=
  match e with
  | errors_New m | clientError m | storeError m | requestError m => m
  end.

#[global] Instance error_eq_dec : EqDecision error.
Proof. solve_decision. Defined.

(** [type Transaction struct], by the nine fields it declares; the string
    field [ID] is the primary key.  The embedded [gorm.Model] carries the
    bookkeeping of the store library (its numeric id, which the field [ID]
    shadows, and the times of creation, update and deletion), which no code
    of the repository reads or writes and which is left out here: a row is
    its nine columns. *)
Record Transaction := mkTransaction {
  ID : string;
  Blockchain : string;
  Metadata : gmap string string;
  Monitoring : bool;
  Pending : bool;
  Checks : Z;
  Success : bool;
  Reviewed : bool;
  Error : string
}.

#[global] Instance Transaction_eq_dec : EqDecision Transaction.
Proof. solve_decision. Defined.

(** The zero value [Transaction{}]. *)
Definition zero : Transaction :=
  mkTransaction "" "" ∅ false false 0 false false "".

Definition set_Blockchain (v : string) (t : Transaction) : Transaction :=
  mkTransaction (ID t) v (Metadata t) (Monitoring t) (Pending t) (Checks t)
    (Success t) (Reviewed t) (Error t).
Definition set_Monitoring (v : bool) (t : Transaction) : Transaction :=
  mkTransaction (ID t) (Blockchain t) (Metadata t) v (Pending t) (Checks t)
    (Success t) (Reviewed t) (Error t).
Definition set_Pending (v : bool) (t : Transaction) : Transaction :=
  mkTransaction (ID t) (Blockchain t) (Metadata t) (Monitoring t) v (Checks t)
    (Success t) (Reviewed t) (Error t).
Definition set_Checks (v : Z) (t : Transaction) : Transaction :=
  mkTransaction (ID t) (Blockchain t) (Metadata t) (Monitoring t) (Pending t) v
    (Success t) (Reviewed t) (Error t).
Definition set_Success (v : bool) (t : Transaction) : Transaction :=
  mkTransaction (ID t) (Blockchain t) (Metadata t) (Monitoring t) (Pending t)
    (Checks t) v (Reviewed t) (Error t).
Definition set_Reviewed (v : bool) (t : Transaction) : Transaction :=
  mkTransaction (ID t) (Blockchain t) (Metadata t) (Monitoring t) (Pending t)
    (Checks t) (Success t) v (Error t).
Definition set_Error (v : string) (t : Transaction) : Transaction :=
  mkTransaction (ID t) (Blockchain t) (Metadata t) (Monitoring t) (Pending t)
    (Checks t) (Success t) (Reviewed t) v.

(** *** The store

    The table of transactions, keyed by the primary key, the column [id].
    Its rows come in the order of [map_to_list]; SQL leaves the order of a
    query without [ORDER BY] unspecified.  The gorm calls of the package are
    modelled by what they do to the table:
    - [DB.Create(t)] inserts a row and fails on a primary key that exists;
    - [DB.Find(&Transaction{ID: id})] loads a row into its destination.  The
      destination is also the condition, by its primary key when that is not
      the zero value: with a non-empty [id] the row loaded is the row of that
      key, if there is one; with the empty [id] there is no condition, and
      the destination receives the first row of the table;
    - [.Updates(ut)] and [.Update(col, v)], called on the result of that
      [Find], write the listed columns of the row that was loaded, by its
      primary key, and write nothing when no row was loaded;
    - [DB.Find(&txs, cond)] with a struct condition selects the rows that
      agree with [cond] on the fields of [cond] that are not the zero value
      of their type.  A field left at its zero value is no condition: a Go
      struct literal that spells out [Reviewed: false] is the same value as
      one that omits it. *)

Inductive value :=
  | VBool (b : bool)
  | VInt (n : Z)
  | VString (s : string).

(** Writing one column of a row. *)
Definition assign (col : string) (v : value) (r : Transaction) : Transaction :=
  match v with
  | VBool b =>
      if decide (col = "success") then set_Success b r
      else if decide (col = "pending") then set_Pending b r
      else if decide (col = "monitoring") then set_Monitoring b r
      else if decide (col = "reviewed") then set_Reviewed b r
      else r
  | VInt n =>
      if decide (col = "checks") then set_Checks n r else r
  | VString s =>
      if decide (col = "error") then set_Error s r
      else if decide (col = "blockchain") then set_Blockchain s r
      else r
  end.

Definition assign_all (ut : list (string * value)) (r : Transaction) : Transaction :=
  foldl (fun r cv => assign cv.1 cv.2 r) r ut.

(** The key of the row that [DB.Find(&Transaction{ID: id})] loads. *)
Definition Find_dest (id : string) (db : gmap string Transaction)
    : option string :=
  if decide (id = "") then fst <$> head (map_to_list db)
  else (fun _ => id) <$> db !! id.

Definition Updates (id : string) (ut : list (string * value))
    (db : gmap string Transaction) : gmap string Transaction :=
  match Find_dest id db with
  | Some k => alter (assign_all ut) k db
  | None => db
  end.

Definition Update (id : string) (col : string) (v : value)
    (db : gmap string Transaction) : gmap string Transaction :=
  match Find_dest id db with
  | Some k => alter (assign col v) k db
  | None => db
  end.

Definition Create (t : Transaction) (db : gmap string Transaction)
    : gmap string Transaction * option error :=
  match db !! ID t with
  | Some _ => (db, Some (storeError "duplicate key value violates unique constraint"))
  | None => (<[ID t := t]> db, None)
  end.

(** One field of a struct condition: no condition when it is the zero
    value.  The conditions are those of the nine fields of the record.  A
    request body can also name members of the embedded [gorm.Model], and can
    give the metadata as an empty object, which is not the nil map: the
    store library takes those for further conditions, so that for such a
    body the database returns a part of the rows selected here. *)
Definition cond_field {A} `{EqDecision A} (z c v : A) : bool :=
  bool_decide (c = z) || bool_decide (v = c).

Definition where_struct (cond r : Transaction) : bool :=
  cond_field "" (ID cond) (ID r)
  && cond_field "" (Blockchain cond) (Blockchain r)
  && cond_field ∅ (Metadata cond) (Metadata r)
  && cond_field false (Monitoring cond) (Monitoring r)
  && cond_field false (Pending cond) (Pending r)
  && cond_field 0 (Checks cond) (Checks r)
  && cond_field false (Success cond) (Success r)
  && cond_field false (Reviewed cond) (Reviewed r)
  && cond_field "" (Error cond) (Error r).

Definition Find (cond : Transaction) (db : gmap string Transaction) : list Transaction :=
  filter (fun r => where_struct cond r = true) (map_to_list db).*2.

(** Every row is stored under its own [ID]. *)
Definition keyed (db : gmap string Transaction) : Prop :=
  forall k r, db !! k = Some r -> ID r = k.

(** *** Chain clients *)

(** What a call of a chain client returns: a value, or an error with its
    message.  A [result] is a [(value, error)] pair returned by a function of
    this package. *)
Inductive reply (A : Type) :=
  | Got (a : A)
  | Failed (msg : string).
Arguments Got {A} a.
Arguments Failed {A} msg.

Inductive result (A : Type) :=
  | Ok (a : A)
  | Err (e : error).
Arguments Ok {A} a.
Arguments Err {A} e.

Section Engine.

(** [common.Hash] and [common.HexToHash] of go-ethereum. *)
Variable Hash : Type.
Variable HexToHash : string -> Hash.

(** What the engine reads of a [types.Transaction] and of a
    [types.Receipt]; [Status] is a [uint64]. *)
Record Tx := mkTx { Tx_Hash : Hash }.
Record Receipt := mkReceipt { Status : N }.

(** An [*ethclient.Client], by the two calls the engine makes. *)
Record Client := mkClient {
  TransactionByHash : Hash -> reply (Tx * bool);
  TransactionReceipt : Hash -> reply Receipt
}.

(** The package variable [Clients], filled at start-up, and the process
    environment. *)
Variable Clients : gmap string Client.
Variable env : gmap string string.

Definition GetBlockchainClient (name : string) : result Client :=
  match Clients !! name with
  | Some c => Ok c
  | None => Err (errors_New "blockchain client not found")
  end.

Definition ChecksThreshold (t : Transaction) : Transaction :=
  match strconv.Atoi (os.Getenv env "CHECKS_THRESHOLD") with
  | (_, Some serr) => t
  | (sc, None) =>
      if sc <? Checks t then
        let t := set_Error "exceeded checks threshold" t in
        let t := set_Monitoring false t in
        let t := set_Pending false t in
        set_Success false t
      else t
  end.

(** The column map of [Save]. *)
Definition Save_columns (t : Transaction) : list (string * value) :=
  [("success", VBool (Success t));
   ("pending", VBool (Pending t));
   ("error", VString (Error t));
   ("monitoring", VBool (Monitoring t));
   ("checks", VInt (Checks t))].

(** [Save] returns the receiver as [ChecksThreshold] left it, and the
    store. *)
Definition Save (t : Transaction) (db : gmap string Transaction)
    : Transaction * gmap string Transaction :=
  let t := ChecksThreshold t in
  let ut := Save_columns t in
  (t, Updates (ID t) ut db).

(** [CheckSuccess]: the receiver after the call, the store after the call,
    and the returned error. *)
Definition CheckSuccess (t : Transaction) (db : gmap string Transaction)
    : Transaction * gmap string Transaction * option error :=
  let t := set_Checks (GoInt.add (Checks t) 1) t in
  let txHash := HexToHash (ID t) in
  match GetBlockchainClient (Blockchain t) with
  | Err cerr => (t, db, Some cerr)
  | Ok c =>
      match TransactionByHash c txHash with
      | Failed msg =>
          let err := clientError msg in
          let t := set_Pending false t in
          let t := set_Monitoring false t in
          let t := set_Error (Error_msg err) t in
          let '(t, db) := Save t db in
          (t, db, Some err)
      | Got (tx, isPending) =>
          if isPending then
            let t := set_Pending true t in
            let t := set_Monitoring true t in
            let '(t, db) := Save t db in
            (t, db, None)
          else
            let t := set_Pending false t in
            let t := set_Monitoring false t in
            match TransactionReceipt c (Tx_Hash tx) with
            | Failed msg =>
                let err := clientError msg in
                let t := set_Error (Error_msg err) t in
                let '(t, db) := Save t db in
                (t, db, Some err)
            | Got r =>
                let t :=
                  if (0 <? Status r)%N then set_Success true t
                  else set_Error "failure" (set_Success false t) in
                let '(t, db) := Save t db in
                (t, db, None)
            end
      end
  end.

(** [New]: the receiver, the store and the returned error. *)
Definition New (t : Transaction) (db : gmap string Transaction)
    : Transaction * gmap string Transaction * option error :=
  let t := set_Monitoring true t in
  match Create t db with
  | (db, Some err) => (t, db, Some err)
  | (db, None) => (t, db, None)
  end.

Definition SetReviewed (t : Transaction) (db : gmap string Transaction)
    : gmap string Transaction * option error :=
  (Update (ID t) "reviewed" (VBool (Reviewed t)) db, None).

Definition SetSuccess (t : Transaction) (db : gmap string Transaction)
    : gmap string Transaction * option error :=
  (Update (ID t) "success" (VBool (Success t)) db, None).

Definition MonitoredTransactions (db : gmap string Transaction)
    : list Transaction * option error :=
  let txs :=
    Find (mkTransaction "" "" ∅ true false 0 false false "") db in
  (txs, None).

(** *** The sweep: [monitorWorker] and [CheckMonitoredTransactions]

    The goroutines are modelled by an interleaving semantics: a schedule
    names, step by step, the goroutine that moves.  A step of the main
    goroutine is one iteration of one of its loops; a step of a worker is one
    iteration of its [range tin] loop.

    The image builds with Go 1.15, where the variable [t] of
    [for _, t := range txs] is one variable for the whole loop, so [&t] is
    the same address at every iteration.  The memory holding the
    transactions that pointers refer to is the list [mem]; the loop variable
    lives at address [loop_var]. *)

Inductive goroutine :=
  | Main
  | Worker (w : nat).

(** Where the main goroutine stands: in the [range txs] loop with the
    elements still to come, in the receive loop with its counter [i], or
    returned. *)
Inductive main_at :=
  | Ranging (rest : list Transaction)
  | Receiving (i : nat)
  | Returned.

Record sweep := mkSweep {
  store : gmap string Transaction;
  mem : list Transaction;
  tin : list nat;
  tin_closed : bool;
  tout : list nat;
  len_txs : nat;
  at_main : main_at;
  exited : gset nat;
  passes : list string
}.
(** [exited] is the set of workers whose [range tin] loop has ended;
    [passes] records, in order, the [ID] of the receiver of every
    [CheckSuccess] call made so far (it is not program state). *)

Definition loop_var : nat := 0%nat.
Definition workers : nat := 10%nat.

(** The state after [MonitoredTransactions], the two [make(chan ...)] and the
    ten [go monitorWorker(...)] statements. *)
Definition sweep_start (db : gmap string Transaction) : sweep :=
  let txs := (MonitoredTransactions db).1 in
  mkSweep db [zero] [] false [] (length txs) (Ranging txs) ∅ [].

Definition main_step (s : sweep) : option sweep :=
  match at_main s with
  | Ranging (x :: rest) =>
      (* t = x; tin <- &t *)
      Some (mkSweep (store s) (<[loop_var := x]> (mem s)) (tin s ++ [loop_var])
              (tin_closed s) (tout s) (len_txs s) (Ranging rest) (exited s)
              (passes s))
  | Ranging [] =>
      (* close(tin) *)
      Some (mkSweep (store s) (mem s) (tin s) true (tout s) (len_txs s)
              (Receiving 0) (exited s) (passes s))
  | Receiving i =>
      if decide (i < len_txs s)%nat then
        (* <-tout *)
        match tout s with
        | _ :: rest =>
            Some (mkSweep (store s) (mem s) (tin s) (tin_closed s) rest
                    (len_txs s) (Receiving (S i)) (exited s) (passes s))
        | [] => None
        end
      else
        Some (mkSweep (store s) (mem s) (tin s) (tin_closed s) (tout s)
                (len_txs s) Returned (exited s) (passes s))
  | Returned => None
  end.

Definition worker_step (w : nat) (s : sweep) : option sweep :=
  if decide ((w < workers)%nat ∧ w ∉ exited s) then
    match tin s with
    | p :: rest =>
        match mem s !! p with
        | Some t =>
            (* t.CheckSuccess(ctx); tout <- t *)
            let '(t', db', _) := CheckSuccess t (store s) in
            Some (mkSweep db' (<[p := t']> (mem s)) rest (tin_closed s)
                    (tout s ++ [p]) (len_txs s) (at_main s) (exited s)
                    (passes s ++ [ID t]))
        | None => None
        end
    | [] =>
        if tin_closed s then
          Some (mkSweep (store s) (mem s) (tin s) (tin_closed s) (tout s)
                  (len_txs s) (at_main s) ({[w]} ∪ exited s) (passes s))
        else None
    end
  else None.

Definition step (g : goroutine) (s : sweep) : option sweep :=
  match g with
  | Main => main_step s
  | Worker w => worker_step w s
  end.

(** Running a schedule; a goroutine that cannot move when it is named is
    passed over. *)
Fixpoint run (schedule : list goroutine) (s : sweep) : sweep :=
  match schedule with
  | [] => s
  | g :: schedule' => run schedule' (default s (step g s))
  end.

Definition CheckMonitoredTransactions (schedule : list goroutine)
    (db : gmap string Transaction) : sweep :=
  run schedule (sweep_start db).
End Engine.

End etx.

(** ** [strings.Split] and [strings.TrimSpace] (Go standard library) *)

Module gostrings.

(** [strings.Split(s, sep)] for a separator of one byte, as in the two calls
    of [init]: the pieces between the occurrences of the separator, one more
    than there are occurrences. *)
Fixpoint Split (s : string) (sep : ascii) : list string :=
  match s with
  | EmptyString => [EmptyString]
  | String c s' =>
      if decide (c = sep) then EmptyString :: Split s' sep
      else
        match Split s' sep with
        | piece :: rest => String c piece :: rest
        | [] => [String c EmptyString]
        end
  end.

(** The number of occurrences of a byte in a string. *)
Fixpoint Count (s : string) (sep : ascii) : nat :=
  match s with
  | EmptyString => O
  | String c s' => if decide (c = sep) then S (Count s' sep) else Count s' sep
  end.

Definition byte (c : ascii) : N := N_of_ascii c.

(** The white space of [unicode.IsSpace], by its UTF-8 encoding: the six
    ASCII characters, U+0085 and U+00A0 in two bytes, and U+1680,
    U+2000..U+200A, U+2028, U+2029, U+202F, U+205F and U+3000 in three. *)
Definition space1 (a : ascii) : bool :=
  bool_decide (byte a ∈ [9; 10; 11; 12; 13; 32]%N).

Definition space2 (a b : ascii) : bool :=
  bool_decide (byte a = 194%N) && bool_decide (byte b ∈ [133; 160]%N).

Definition space3 (a b c : ascii) : bool :=
  (bool_decide (byte a = 225%N) && bool_decide (byte b = 154%N)
   && bool_decide (byte c = 128%N))
  || (bool_decide (byte a = 226%N) && bool_decide (byte b = 128%N)
      && ((128 <=? byte c)%N && (byte c <=? 138)%N
          || bool_decide (byte c ∈ [168; 169; 175]%N)))
  || (bool_decide (byte a = 226%N) && bool_decide (byte b = 129%N)
      && bool_decide (byte c = 159%N))
  || (bool_decide (byte a = 227%N) && bool_decide (byte b = 128%N)
      && bool_decide (byte c = 128%N)).

(** Dropping the white space a string starts with. *)
Fixpoint TrimLeft (s : string) : string :=
  match s with
  | String a s1 =>
      if space1 a then TrimLeft s1
      else
        match s1 with
        | String b s2 =>
            if space2 a b then TrimLeft s2
            else
              match s2 with
              | String c s3 => if space3 a b c then TrimLeft s3 else s
              | EmptyString => s
              end
        | EmptyString => s
        end
  | EmptyString => s
  end.

(** The same on a reversed string, where the bytes of a character come last
    byte first: this drops the white space the string ends with. *)
Fixpoint TrimLeft_reversed (s : string) : string :=
  match s with
  | String c s1 =>
      if space1 c then TrimLeft_reversed s1
      else
        match s1 with
        | String b s2 =>
            if space2 b c then TrimLeft_reversed s2
            else
              match s2 with
              | String a s3 =>
                  if space3 a b c then TrimLeft_reversed s3 else s
              | EmptyString => s
              end
        | EmptyString => s
        end
  | EmptyString => s
  end.

Definition TrimSpace (s : string) : string :=
  String.rev (TrimLeft_reversed (String.rev (TrimLeft s))).

End gostrings.

(** ** Package [main]: the HTTP handlers *)

Module main.

Import etx.

(** What [ioutil.ReadAll(r.Body)] followed by [json.Unmarshal(bd, &t)] makes
    of a request body: a read error, a decoding error, the JSON value [null]
    (decoded without error, leaving the pointer [t] nil), or a record in which
    the members the body does not mention keep their zero value. *)
Inductive Body :=
  | Unreadable (berr : error)
  | Undecodable (jerr : error)
  | Null
  | Decoded (t : Transaction).

Record Request := mkRequest {
  body : Body;
  form : gmap string string;
  vars : gmap string string
}.

Definition FormValue (r : Request) (key : string) : string :=
  default "" (form r !! key).

(** What a handler writes: a text, or the JSON encoding of a record. *)
Inductive Written :=
  | Text (s : string)
  | Json (t : Transaction).

(** A handler either answers with a status code and a body, or panics. *)
Inductive Response :=
  | Respond (code : Z) (w : Written)
  | Panic.

Definition StatusOK : Z := 200.
Definition StatusBadRequest : Z := 400.

(** [http.Error] writes the message and a line feed. *)
Definition http_Error (msg : string) (code : Z) : Response :=
  Respond code (Text (msg +:+ String "010"%char EmptyString)).

Definition HandleNewTransaction (r : Request) (db : gmap string Transaction)
    : Response * gmap string Transaction :=
  match body r with
  | Unreadable berr => (http_Error (Error_msg berr) StatusBadRequest, db)
  | Undecodable jerr => (http_Error (Error_msg jerr) StatusBadRequest, db)
  | Null => (Panic, db)
  | Decoded t =>
      match New t db with
      | (_, db, Some terr) => (http_Error (Error_msg terr) StatusBadRequest, db)
      | (_, db, None) => (Respond StatusOK (Text ""), db)
      end
  end.

Definition set_ID (v : string) (t : Transaction) : Transaction :=
  mkTransaction v (Blockchain t) (Metadata t) (Monitoring t) (Pending t)
    (Checks t) (Success t) (Reviewed t) (Error t).

Definition HandleSetReviewed (r : Request) (db : gmap string Transaction)
    : Response * gmap string Transaction :=
  match body r with
  | Unreadable berr => (http_Error (Error_msg berr) StatusBadRequest, db)
  | Undecodable jerr => (http_Error (Error_msg jerr) StatusBadRequest, db)
  | Null => (Panic, db)
  | Decoded t =>
      let t := set_ID (default "" (vars r !! "txid")) t in
      match SetReviewed t db with
      | (db, Some terr) => (http_Error (Error_msg terr) StatusBadRequest, db)
      | (db, None) =>
          (* etx.DB.Find(t, &etx.Transaction{ID: t.ID}) *)
          let t :=
            match Find_dest (ID t) db with
            | Some k => default t (db !! k)
            | None => t
            end in
          (Respond StatusOK (Json t), db)
      end
  end.

(** A form value that is no decimal integer: [Atoi] fails with a syntax
    error.  The value of an absent parameter, the empty string, is one. *)
Definition not_a_number (s : string) : Prop :=
  (strconv.Atoi s).2 = Some strconv.ErrSyntax.

(** A form value that is a decimal integer too large or too small for an
    [int]: [Atoi] fails with a range error. *)
Definition out_of_range (s : string) : Prop :=
  (strconv.Atoi s).2 = Some strconv.ErrRange.

Record Page := mkPage { Offset : Z; Limit : Z }.

Definition Paginate (r : Request) : Page :=
  let page := (strconv.Atoi (FormValue r "page")).1 in
  let page := if decide (page = 0) then 1 else page in
  let pageSize := (strconv.Atoi (FormValue r "pageSize")).1 in
  let pageSize :=
    if decide (100 < pageSize) then 100
    else if decide (pageSize <= 0) then 10
    else pageSize in
  let offset := GoInt.mul (GoInt.sub page 1) pageSize in
  mkPage offset pageSize.

(** [db.Offset(offset).Limit(pageSize)] on the rows a query selects: the
    store library puts an offset into the query only when it is positive
    (the limit here is always positive). *)
Definition Scopes (p : Page) (rows : list Transaction) : list Transaction :=
  take (Z.to_nat (Limit p)) (drop (Z.to_nat (Offset p)) rows).

(** What [HandleGetTransactions] answers: an error written by [http.Error],
    or the JSON array of the records found. *)
Inductive Listing :=
  | Refused (resp : Response)
  | Rows (code : Z) (ot : list Transaction).

Definition StatusInternalServerError : Z := 500.

(** The start of the process: ended by [log.Fatal], or running. *)
Inductive Startup (A : Type) :=
  | Fatal (msg : string)
  | Running (a : A).
Arguments Fatal {A} msg.
Arguments Running {A} a.

(** How [worker] goes: ended at once, or sweeping. *)
Inductive WorkerRun :=
  | TimerRejected (cerr : strconv.NumError)
  | Swept (db : gmap string Transaction).

Section Serving.

Variable Hash : Type.
Variable HexToHash : string -> Hash.

(** [Find_nil] is what [DB.Find(&ot, t)] selects when the condition [t] is
    a nil pointer (the body was the JSON value null); [ChainID] is the
    [ChainID] call of a chain client, [Dial] is [ethclient.Dial]. *)
Variable Find_nil : gmap string Transaction -> list Transaction.
Variable ChainID : Client Hash -> reply Z.
Variable Dial : string -> reply (Client Hash).

Definition HandleGetTransactions (r : Request) (db : gmap string Transaction)
    : Listing :=
  match body r with
  | Unreadable berr => Refused (http_Error (Error_msg berr) StatusBadRequest)
  | Undecodable jerr => Refused (http_Error (Error_msg jerr) StatusBadRequest)
  | Null => Rows StatusOK (Scopes (Paginate r) (Find_nil db))
  | Decoded t => Rows StatusOK (Scopes (Paginate r) (Find t db))
  end.

(** The clients are visited in the order of the map, which Go leaves
    unspecified; the first that fails ends the check. *)
Definition HandleHealthCheck (Clients : gmap string (Client Hash)) : Response :=
  let failures :=
    omap (fun nc => match ChainID nc.2 with
                    | Failed msg => Some msg
                    | Got _ => None
                    end) (map_to_list Clients) in
  match failures with
  | msg :: _ => http_Error msg StatusInternalServerError
  | [] => Respond StatusOK (Text "healthy")
  end.

(** The loop of [init] over the entries of [ETH_ENDPOINTS], which fills
    [Clients]. *)
Fixpoint dial_endpoints (entries : list string)
    (Clients : gmap string (Client Hash)) : Startup (gmap string (Client Hash)) :=
  match entries with
  | [] => Running Clients
  | e :: entries' =>
      let e := gostrings.TrimSpace e in
      let ss := gostrings.Split e "="%char in
      match ss with
      | [s0; s1] =>
          let name := gostrings.TrimSpace s0 in
          let endpoint := gostrings.TrimSpace s1 in
          match Dial endpoint with
          | Failed msg => Fatal ("ethclient error" +:+ msg)
          | Got c => dial_endpoints entries' (<[name := c]> Clients)
          end
      | _ => Fatal "ETH_ENDPOINTS must be in the form of '<name>=<endpoint>'"
      end
  end.

Definition init_Clients (env : gmap string string)
    : Startup (gmap string (Client Hash)) :=
  dial_endpoints (gostrings.Split (os.Getenv env "ETH_ENDPOINTS") ","%char) ∅.

(** The loop of [worker], for as many rounds as schedules are given: a
    round is one call of [CheckMonitoredTransactions], and the next round
    starts when the call has returned. *)
Fixpoint sweeps (Clients : gmap string (Client Hash)) (env : gmap string string)
    (rounds : list (list goroutine)) (db : gmap string Transaction)
    : gmap string Transaction :=
  match rounds with
  | [] => db
  | schedule :: rounds' =>
      let s := CheckMonitoredTransactions Hash HexToHash Clients env schedule db in
      match at_main s with
      | Returned => sweeps Clients env rounds' (store s)
      | _ => store s
      end
  end.

(** [worker]: ended by [log.Fatal(cerr)] when [Atoi] rejects
    [CHECKS_TIMER], else the store as the rounds leave it. *)
Definition worker (Clients : gmap string (Client Hash)) (env : gmap string string)
    (rounds : list (list goroutine)) (db : gmap string Transaction)
    : WorkerRun :=
  match strconv.Atoi (os.Getenv env "CHECKS_TIMER") with
  | (_, Some cerr) => TimerRejected cerr
  | (ct, None) => Swept (sweeps Clients env rounds db)
  end.

End Serving.

End main.

(** ** The vocabulary of the properties *)

Module lifecycle.

Import etx.

(** The fields an abandoned record shows. *)
Definition abandoned (r : Transaction) : Prop :=
  Error r = "exceeded checks threshold" /\ Monitoring r = false
  /\ Pending r = false /\ Success r = false.

(** The flag invariant of a row, and what holds of a row that is still
    monitored. *)
Definition success_clean (r : Transaction) : Prop :=
  Success r = true -> Pending r = false /\ Error r = "".

Definition monitored_clean (r : Transaction) : Prop :=
  Monitoring r = true -> Success r = false /\ Error r = "".

Definition clean_store (db : gmap string Transaction) : Prop :=
  forall k r, db !! k = Some r -> success_clean r /\ monitored_clean r.

(** The record with the counter incremented, as every branch of
    [CheckSuccess] starts from it. *)
Definition counted (t : Transaction) : Transaction :=
  set_Checks (GoInt.add (Checks t) 1) t.

(** The fields that [Save] does not list. *)
Definition frame_of (r : Transaction)
    : string * string * gmap string string * bool :=
  (ID r, Blockchain r, Metadata r, Reviewed r).

(** [r'] has the fields of [r] that [Save] does not list. *)
Definition same_frame (r r' : Transaction) : Prop :=
  ID r' = ID r /\ Blockchain r' = Blockchain r /\ Metadata r' = Metadata r
  /\ Reviewed r' = Reviewed r.

Section Reach.

Variable Hash : Type.
Variable HexToHash : string -> Hash.
Variable Clients : gmap string (Client Hash).
Variable env : gmap string string.

(** The operations that change the store: creation of a record whose
    request leaves [success] false and [error] empty, a pass over a
    monitored row as the sweep read it (the [reviewed] flag may have been
    set in between), and mark-reviewed. *)
Inductive engine_step : gmap string Transaction -> gmap string Transaction -> Prop :=
  | step_create t db :
      Success t = false -> Error t = "" ->
      engine_step db (New t db).1.2
  | step_pass t b db :
      db !! ID t = Some (set_Reviewed b t) -> Monitoring t = true ->
      engine_step db (CheckSuccess Hash HexToHash Clients env t db).1.2
  | step_reviewed t db :
      engine_step db (SetReviewed t db).1.

Definition reachable (db : gmap string Transaction) : Prop :=
  rtc engine_step ∅ db.

End Reach.

End lifecycle.

(** What holds of the state of a sweep at every step, for the store [db0]
    the sweep started from and the snapshot [txs] it read. *)

Module sweeping.

Import etx.

(** When no record of the snapshot has the empty id, the store differs from
    [db0] at keys of the snapshot only; every queue entry is the address of
    the loop variable, which holds a record with a key of the snapshot once
    something is queued; the records still to range over are records of the
    snapshot. *)
Definition writes_confined (db0 : gmap string Transaction)
    (txs : list Transaction) (s : sweep) : Prop :=
  ((forall x, x ∈ txs -> ID x <> "") ->
   forall k, (forall x, x ∈ txs -> ID x <> k) -> store s !! k = db0 !! k)
  /\ length (mem s) = 1%nat
  /\ (forall p, p ∈ tin s -> p = loop_var)
  /\ (tin s <> [] ->
      exists x y, mem s !! loop_var = Some x /\ y ∈ txs /\ ID x = ID y)
  /\ (forall rest, at_main s = Ranging rest -> rest ⊆ txs).

(** The bookkeeping of the two channels: what was queued is either still
    queued or has had its pass, and every finished pass has put one entry on
    the result channel, of which the main goroutine has taken [i]. *)
Definition counted_passes (s : sweep) : Prop :=
  match at_main s with
  | Ranging rest =>
      (length (passes s) + length (tin s) + length rest = len_txs s)%nat
      /\ length (tout s) = length (passes s)
  | Receiving i =>
      (length (passes s) + length (tin s) = len_txs s)%nat
      /\ (length (passes s) = length (tout s) + i)%nat
      /\ (i <= len_txs s)%nat
  | Returned =>
      length (passes s) = len_txs s /\ tin s = [] /\ tout s = []
  end.

(** A sweep over a snapshot of the one record [x], from the store [db0]:
    before the pass the store is as the sweep found it, and the loop variable
    holds [x] once it is queued; after the pass the store is [db1], what the
    pass on [x] has left, and nothing is queued. *)
Definition single_pass (db0 : gmap string Transaction) (x : Transaction)
    (db1 : gmap string Transaction) (s : sweep) : Prop :=
  (passes s = [] /\ store s = db0 /\ length (mem s) = 1%nat
   /\ (tin s <> [] -> mem s !! loop_var = Some x)
   /\ (forall p, p ∈ tin s -> p = loop_var)
   /\ (forall rest, at_main s = Ranging rest -> rest ⊆ [x]))
  \/ (passes s <> [] /\ store s = db1 /\ tin s = []).

End sweeping.

(** ** Concrete chains, configurations and records *)

Module scenario.

Import etx.

(** A chain on which every transaction is mined with a receipt of status 1,
    one on which every transaction is still pending, and one that cannot be
    reached. *)
Definition chain_mined : Client string :=
  mkClient string (fun h => Got (mkTx string h, false))
    (fun _ => Got (mkReceipt 1)).

Definition chain_pending : Client string :=
  mkClient string (fun h => Got (mkTx string h, true))
    (fun _ => Got (mkReceipt 0)).

Definition chain_down : Client string :=
  mkClient string (fun _ => Failed "connection refused")
    (fun _ => Failed "connection refused").

Definition HexToHash (s : string) : string := s.

Definition mined : gmap string (Client string) := {["eth" := chain_mined]}.
Definition pending : gmap string (Client string) := {["eth" := chain_pending]}.

(** [CHECKS_THRESHOLD=5]. *)
Definition threshold_5 : gmap string string := {["CHECKS_THRESHOLD" := "5"]}.

(** The record [{id: 0xabc, chain: eth}] as [New] stores it, with a given
    counter, and records on other chains and under other keys. *)
Definition record (id chain : string) (checks : Z) : Transaction :=
  mkTransaction id chain ∅ true false checks false false "".

Definition tx_abc (checks : Z) : Transaction := record "0xabc" "eth" checks.

(** A store with two monitored rows. *)
Definition two_rows : gmap string Transaction :=
  <["0xa" := record "0xa" "eth" 0]> (<["0xb" := record "0xb" "eth" 0]> ∅).

(** The main goroutine queues both rows and closes the channel before the
    workers run; two workers then take one queue entry each; the main
    goroutine collects the two results and returns. *)
Definition queue_first : list goroutine :=
  [Main; Main; Main; Worker 0; Worker 1; Main; Main; Main].

End scenario.

(** ** The retry budget of a row *)

Module retry.

Import etx.

(** The counter [n] is within the budget: it does not exceed the threshold,
    or [CHECKS_THRESHOLD] holds no integer. *)
Definition within_budget (env : gmap string string) (n : Z) : Prop :=
  forall sc,
    strconv.Atoi (os.Getenv env "CHECKS_THRESHOLD") = (sc, None) -> n <= sc.

Section Rounds.

Variable Hash : Type.
Variable HexToHash : string -> Hash.
Variable Clients : gmap string (Client Hash).
Variable env : gmap string string.

(** Every round of the loop of [worker] returns: the schedule of each call
    of [CheckMonitoredTransactions], on the store the rounds before it have
    left, lets the main goroutine reach its [return]. *)
Fixpoint returning (rounds : list (list goroutine))
    (db : gmap string Transaction) : Prop :=
  match rounds with
  | [] => True
  | schedule :: rounds' =>
      let s := CheckMonitoredTransactions Hash HexToHash Clients env schedule db in
      at_main s = Returned /\ returning rounds' (store s)
  end.

End Rounds.

(** [r] is a row of the store, and its only monitored row. *)
Definition only_monitored (r : Transaction) (db : gmap string Transaction)
    : Prop :=
  db !! ID r = Some r /\ Monitoring r = true
  /\ forall k x, db !! k = Some x -> Monitoring x = true -> k = ID r.

End retry.

(** ** Schedules of a sweep *)

Module scheduling.

Import etx.

Section Moves.

Variable Hash : Type.
Variable HexToHash : string -> Hash.
Variable Clients : gmap string (Client Hash).
Variable env : gmap string string.

(** Every goroutine that the schedule names can move when its turn comes. *)
Fixpoint moves (schedule : list goroutine) (s : sweep) : Prop :=
  match schedule with
  | [] => True
  | g :: schedule' =>
      match step Hash HexToHash Clients env g s with
      | Some s' => moves schedule' s'
      | None => False
      end
  end.

End Moves.

(** The steps the main goroutine has before it: two for every record still
    to queue (the send, and the receive of its result), the close, and the
    return. *)
Definition main_left (s : sweep) : nat :=
  match at_main s with
  | Ranging rest => 2 * length rest + len_txs s + 2
  | Receiving i => len_txs s - i + 1
  | Returned => 0
  end.

(** A bound on the steps a sweep can still take: those of the main
    goroutine, one pass for every queue entry, and the exit of every worker
    still running. *)
Definition steps_left (s : sweep) : nat :=
  main_left s + length (tin s)
  + size (set_seq 0 workers ∖ exited s : gset nat).

(** A worker has left its loop only after the queue was closed and drained,
    and the queue is closed only after the last send. *)
Definition workers_wait (s : sweep) : Prop :=
  (forall w, w ∈ exited s -> tin s = [] /\ tin_closed s = true)
  /\ (tin_closed s = true -> forall rest, at_main s <> Ranging rest).

(** The schedule in which the main goroutine queues a snapshot of [n]
    records and closes the queue, the first worker then takes every entry,
    and the main goroutine collects the results and returns. *)
Definition queue_all_first (n : nat) : list goroutine :=
  replicate n Main ++ [Main] ++ replicate n (Worker 0)
  ++ replicate (S n) Main.

(** Every pass made so far was on a record with an id of the snapshot. *)
Definition passes_in_snapshot (txs : list Transaction) (s : sweep) : Prop :=
  forall id, id ∈ passes s -> exists y, y ∈ txs /\ ID y = id.

End scheduling.

(** * Properties *)

(** ** Go integers and [strconv.Atoi] *)

Module GoIntFacts.
Import GoInt.

Lemma wrap_in_range z : in_range (wrap z).
Proof.
  unfold in_range, wrap, int_min, int_max.
  pose proof (Z.mod_pos_bound (z + 2 ^ 63) (2 ^ 64) ltac:(lia)). lia.
Qed.

Lemma wrap_id z : in_range z -> wrap z = z.
Proof.
  unfold in_range, wrap, int_min, int_max. intros Hz.
  rewrite Z.mod_small by lia. lia.
Qed.

Lemma add_1_exact x : int_min <= x < int_max -> add x 1 = x + 1.
Proof.
  intros Hx. unfold add. apply wrap_id.
  unfold in_range, int_min, int_max in *. lia.
Qed.

End GoIntFacts.

Module strconvFacts.
Import strconv.

Lemma digit_bound c d : digit c = Some d -> 0 <= d <= 9.
Proof.
  unfold digit. destruct (_ && _) eqn:Hc; [|done].
  apply andb_true_iff in Hc as [H1%Z.leb_le H2%Z.leb_le].
  intros [= <-]. lia.
Qed.

Lemma parse_digits_range s : forall n,
  0 <= n <= maxUint64 -> 0 <= (parse_digits s n).1 <= maxUint64.
Proof.
  induction s as [|c s IH]; intros n Hn; simpl; [done|].
  destruct (digit c) as [d|] eqn:Hd; simpl; [|unfold maxUint64; lia].
  apply digit_bound in Hd.
  destruct (_ <=? n); simpl; [unfold maxUint64; lia|].
  destruct (maxUint64 <? n * 10 + d) eqn:Hlt; simpl; [unfold maxUint64; lia|].
  apply IH. apply Z.ltb_ge in Hlt. lia.
Qed.

Lemma ParseUint_range s : 0 <= (ParseUint s).1 <= maxUint64.
Proof.
  destruct s as [|c s]; [simpl; unfold maxUint64; lia|].
  apply (parse_digits_range (String c s)). unfold maxUint64. lia.
Qed.

Lemma Atoi_in_range s : GoInt.in_range (Atoi s).1.
Proof.
  unfold Atoi, ParseInt, GoInt.in_range, GoInt.int_min, GoInt.int_max.
  destruct s as [|c s]; simpl; [lia|].
  match goal with |- context [ParseUint ?b] =>
    pose proof (ParseUint_range b) as Hu; destruct (ParseUint b) as [un e] end.
  simpl in Hu. unfold maxUint64 in Hu.
  destruct e as [[]|]; simpl; try lia;
    destruct (bool_decide (c = "-"%char)); simpl;
    repeat (case_match; simpl);
    repeat match goal with
           | H : (_ <=? _) = true |- _ => apply Z.leb_le in H
           | H : (_ <=? _) = false |- _ => apply Z.leb_gt in H
           | H : (_ <? _) = true |- _ => apply Z.ltb_lt in H
           | H : (_ <? _) = false |- _ => apply Z.ltb_ge in H
           end; lia.
Qed.

Lemma Atoi_syntax_zero s : (Atoi s).2 = Some ErrSyntax -> (Atoi s).1 = 0.
Proof.
  unfold Atoi, ParseInt. destruct s as [|c s]; [done|].
  cbv zeta. destruct (ParseUint _) as [un [[]|]]; [done|..];
    repeat (case_match; try done).
Qed.

(** A range error comes with the bound nearest to the numeral. *)
Lemma Atoi_range_saturates s :
  (Atoi s).2 = Some ErrRange ->
  (Atoi s).1 = GoInt.int_max \/ (Atoi s).1 = GoInt.int_min.
Proof.
  unfold Atoi, ParseInt. destruct s as [|c s]; [done|].
  destruct (ParseUint _) as [un [[]|]]; [done|..];
    (destruct (negb _ && _); [by left|]);
    (destruct (_ && _); [by right|done]).
Qed.

End strconvFacts.

Example Atoi_5 : strconv.Atoi "5" = (5, None). Proof. reflexivity. Qed.
Example Atoi_neg : strconv.Atoi "-12" = (-12, None). Proof. reflexivity. Qed.
Example Atoi_empty : strconv.Atoi "" = (0, Some strconv.ErrSyntax). Proof. reflexivity. Qed.
Example Atoi_sign : strconv.Atoi "+" = (0, Some strconv.ErrSyntax). Proof. reflexivity. Qed.
Example Atoi_abc : strconv.Atoi "12a" = (0, Some strconv.ErrSyntax). Proof. reflexivity. Qed.
Example Atoi_big : strconv.Atoi "99999999999999999999" = (GoInt.int_max, Some strconv.ErrRange).
Proof. vm_compute. reflexivity. Qed.
Example Atoi_max : strconv.Atoi "9223372036854775807" = (GoInt.int_max, None).
Proof. vm_compute. reflexivity. Qed.
Example Atoi_min : strconv.Atoi "-9223372036854775808" = (GoInt.int_min, None).
Proof. vm_compute. reflexivity. Qed.


(** ** The store *)

Section StoreFacts.
Import etx.
Implicit Types (db : gmap string Transaction) (t r : Transaction).

(** What [Save]'s column map does to a row: the five listed columns are
    taken from the receiver, the others stay. *)
Lemma assign_all_Save_columns t r :
  assign_all (Save_columns t) r =
  mkTransaction (ID r) (Blockchain r) (Metadata r) (Monitoring t) (Pending t)
    (Checks t) (Success t) (Reviewed r) (Error t).
Proof. reflexivity. Qed.

(** With a non-empty id the row loaded is the row of that key. *)
Lemma Find_dest_nonempty id db :
  id <> "" -> Find_dest id db = (fun _ => id) <$> db !! id.
Proof. intros Hid. unfold Find_dest. by rewrite decide_False. Qed.

Lemma Find_dest_nonempty_Some id db k :
  id <> "" -> Find_dest id db = Some k -> k = id /\ is_Some (db !! id).
Proof.
  intros Hid. rewrite Find_dest_nonempty by done.
  destruct (db !! id) eqn:Hr; [|done]. intros [= <-]. by eauto.
Qed.

(** The row loaded is a row of the table. *)
Lemma Find_dest_is_Some id db k :
  Find_dest id db = Some k -> is_Some (db !! k).
Proof.
  unfold Find_dest. case_decide.
  - destruct (map_to_list db) as [|[i x] l] eqn:Hl; [done|].
    intros [= <-]. exists x. apply elem_of_map_to_list. rewrite Hl. left.
  - destruct (db !! id) eqn:Hr; [|done]. intros [= <-]. by eauto.
Qed.

(** Which row is loaded depends on the keys of the table only. *)
Lemma Find_dest_dom id db db' :
  dom db' = dom db -> Find_dest id db' = Find_dest id db.
Proof.
  intros Hdom. unfold Find_dest. case_decide.
  - assert (forall i, map_first_key db' i <-> map_first_key db i) as Hfirst
      by (intros i; by apply map_first_key_dom_L).
    unfold map_first_key in Hfirst. rewrite <- !head_lookup in Hfirst.
    destruct (head (map_to_list db')) as [[i x]|] eqn:H1.
    + destruct (proj1 (Hfirst i) ltac:(by eexists)) as [y ->]. done.
    + destruct (head (map_to_list db)) as [[j y]|] eqn:H2; [|done].
      destruct (proj2 (Hfirst j) ltac:(by eexists)) as [? ?]. done.
  - assert (is_Some (db' !! id) <-> is_Some (db !! id)) as Hsome
      by (by rewrite <- !elem_of_dom, Hdom).
    destruct (db' !! id), (db !! id); try done.
    + destruct (proj1 Hsome ltac:(by eexists)). done.
    + destruct (proj2 Hsome ltac:(by eexists)). done.
Qed.

Lemma Updates_lookup id ut db k :
  Updates id ut db !! k =
  if decide (Find_dest id db = Some k) then assign_all ut <$> db !! k
  else db !! k.
Proof.
  unfold Updates. destruct (Find_dest id db) as [k0|]; [|by case_decide].
  case_decide as Hk.
  - injection Hk as ->. by rewrite lookup_alter_eq.
  - rewrite lookup_alter_ne; [done|]. by intros ->.
Qed.

Lemma Update_lookup id col v db k :
  Update id col v db !! k =
  if decide (Find_dest id db = Some k) then assign col v <$> db !! k
  else db !! k.
Proof.
  unfold Update. destruct (Find_dest id db) as [k0|]; [|by case_decide].
  case_decide as Hk.
  - injection Hk as ->. by rewrite lookup_alter_eq.
  - rewrite lookup_alter_ne; [done|]. by intros ->.
Qed.

(** For a receiver with a non-empty id, the row written is its own. *)
Lemma Updates_lookup_nonempty id ut db k :
  id <> "" ->
  Updates id ut db !! k =
  if decide (id = k) then assign_all ut <$> db !! k else db !! k.
Proof.
  intros Hid. rewrite Updates_lookup, Find_dest_nonempty by done.
  destruct (decide (id = k)) as [->|Hk].
  - destruct (db !! k); [by rewrite decide_True|by rewrite decide_False].
  - rewrite decide_False; [done|]. destruct (db !! id); [|done].
    by intros [= ->].
Qed.

Lemma Update_lookup_nonempty id col v db k :
  id <> "" ->
  Update id col v db !! k =
  if decide (id = k) then assign col v <$> db !! k else db !! k.
Proof.
  intros Hid. rewrite Update_lookup, Find_dest_nonempty by done.
  destruct (decide (id = k)) as [->|Hk].
  - destruct (db !! k); [by rewrite decide_True|by rewrite decide_False].
  - rewrite decide_False; [done|]. destruct (db !! id); [|done].
    by intros [= ->].
Qed.

Lemma Updates_dom id ut db : dom (Updates id ut db) = dom db.
Proof.
  apply set_eq. intros j. rewrite !elem_of_dom, Updates_lookup.
  case_decide; [by rewrite fmap_is_Some|done].
Qed.

Lemma Update_dom id col v db : dom (Update id col v db) = dom db.
Proof.
  apply set_eq. intros j. rewrite !elem_of_dom, Update_lookup.
  case_decide; [by rewrite fmap_is_Some|done].
Qed.

Lemma assign_all_ID ut r : ID (assign_all ut r) = ID r.
Proof.
  unfold assign_all. revert r.
  induction ut as [|[c v] ut IH]; intros r; simpl; [done|].
  rewrite IH. unfold assign. destruct v; repeat case_decide; done.
Qed.

Lemma Updates_keyed id ut db : keyed db -> keyed (Updates id ut db).
Proof.
  intros Hdb k r. rewrite Updates_lookup. case_decide; [|by apply Hdb].
  destruct (db !! k) as [r0|] eqn:Hk; simpl; [|done].
  intros [= <-]. rewrite assign_all_ID. by apply Hdb.
Qed.

End StoreFacts.

(** ** One pass: [ChecksThreshold], [Save], [CheckSuccess] *)

(** Goals about the boolean flags of a record built by setters. *)
Ltac flags :=
  simpl in *; first [done | congruence | split; first [done | congruence]].

Section PassFacts.
Import etx lifecycle.

Context {Hash : Type} (HexToHash : string -> Hash).
Context (Clients : gmap string (Client Hash)) (env : gmap string string).

Implicit Types (db : gmap string Transaction) (t r : Transaction).

Local Abbreviation ChecksThreshold := (etx.ChecksThreshold env).
Local Abbreviation Save := (etx.Save env).
Local Abbreviation CheckSuccess := (etx.CheckSuccess Hash HexToHash Clients env).
Local Abbreviation threshold := (strconv.Atoi (os.Getenv env "CHECKS_THRESHOLD")).

Lemma ChecksThreshold_frame t :
  same_frame t (ChecksThreshold t) /\ Checks (ChecksThreshold t) = Checks t.
Proof.
  unfold etx.ChecksThreshold, same_frame.
  destruct threshold as [sc [e|]]; [done|]. by destruct (sc <? Checks t).
Qed.

Lemma ChecksThreshold_ID t : ID (ChecksThreshold t) = ID t.
Proof. apply ChecksThreshold_frame. Qed.

Lemma ChecksThreshold_exceeded t sc :
  threshold = (sc, None) -> sc < Checks t -> abandoned (ChecksThreshold t).
Proof.
  intros Hsc Hlt. unfold etx.ChecksThreshold. rewrite Hsc.
  apply Z.ltb_lt in Hlt. rewrite Hlt. by repeat split.
Qed.

Lemma ChecksThreshold_within t sc :
  threshold = (sc, None) -> Checks t <= sc -> ChecksThreshold t = t.
Proof.
  intros Hsc Hle. unfold etx.ChecksThreshold. rewrite Hsc.
  apply Z.ltb_ge in Hle. by rewrite Hle.
Qed.

Lemma ChecksThreshold_success t :
  Success (ChecksThreshold t) = true -> ChecksThreshold t = t.
Proof.
  unfold etx.ChecksThreshold.
  destruct threshold as [sc [e|]]; [done|]. by destruct (sc <? Checks t).
Qed.

Lemma Save_lookup t db k :
  (Save t db).2 !! k =
  if decide (Find_dest (ID t) db = Some k)
  then assign_all (Save_columns (ChecksThreshold t)) <$> db !! k
  else db !! k.
Proof. unfold etx.Save. simpl. by rewrite Updates_lookup, ChecksThreshold_ID. Qed.

Lemma Save_lookup_nonempty t db k :
  ID t <> "" ->
  (Save t db).2 !! k =
  if decide (ID t = k)
  then assign_all (Save_columns (ChecksThreshold t)) <$> db !! k
  else db !! k.
Proof.
  intros Hid. unfold etx.Save. simpl.
  rewrite Updates_lookup_nonempty; by rewrite ChecksThreshold_ID.
Qed.

(** Every branch of [CheckSuccess] that has a client ends in one [Save] of a
    record that differs from the receiver in the five written fields only,
    with the counter incremented. *)
Lemma CheckSuccess_found t c :
  Clients !! Blockchain t = Some c ->
  exists pre,
    same_frame t pre /\ Checks pre = GoInt.add (Checks t) 1
    /\ forall db, (CheckSuccess t db).1 = Save pre db.
Proof.
  intros Hc. unfold etx.CheckSuccess, GetBlockchainClient. simpl. rewrite Hc.
  destruct (TransactionByHash Hash c _) as [[tx []]|msg]; simpl.
  - eexists. split_and!; [..|reflexivity]; done.
  - destruct (TransactionReceipt Hash c _) as [rc|msg]; simpl.
    + eexists. split_and!; [..|reflexivity]; by destruct (0 <? Status rc)%N.
    + eexists. split_and!; [..|reflexivity]; done.
  - eexists. split_and!; [..|reflexivity]; done.
Qed.

Lemma CheckSuccess_not_found t db :
  Clients !! Blockchain t = None ->
  CheckSuccess t db =
  (counted t, db, Some (errors_New "blockchain client not found")).
Proof.
  intros Hc. unfold etx.CheckSuccess, GetBlockchainClient. simpl. by rewrite Hc.
Qed.

(** A pass leaves every row but the one its [Save] loads as it was. *)
Lemma CheckSuccess_lookup_ne t db k :
  Find_dest (ID t) db <> Some k -> (CheckSuccess t db).1.2 !! k = db !! k.
Proof.
  intros Hk. destruct (Clients !! Blockchain t) as [c|] eqn:Hc.
  - destruct (CheckSuccess_found t c Hc) as (pre & (Hid & _) & _ & ->).
    rewrite Save_lookup, Hid. by case_decide.
  - by rewrite CheckSuccess_not_found.
Qed.

Lemma CheckSuccess_lookup_ne_nonempty t db k :
  ID t <> "" -> ID t <> k -> (CheckSuccess t db).1.2 !! k = db !! k.
Proof.
  intros Hid Hk. apply CheckSuccess_lookup_ne.
  intros [-> _]%Find_dest_nonempty_Some; done.
Qed.

Lemma Save_abandons t db sc k r0 :
  threshold = (sc, None) -> sc < Checks t ->
  Find_dest (ID t) db = Some k -> db !! k = Some r0 ->
  exists r, (Save t db).2 !! k = Some r /\ abandoned r
            /\ Checks r = Checks t /\ same_frame r0 r.
Proof.
  intros Hsc Hlt Hk Hr0. rewrite Save_lookup, decide_True, Hr0 by done.
  eexists. split; [reflexivity|]. rewrite assign_all_Save_columns.
  destruct (ChecksThreshold_exceeded t sc Hsc Hlt) as (? & ? & ? & ?).
  destruct (ChecksThreshold_frame t) as [_ ?].
  unfold abandoned, same_frame. simpl. by split_and!.
Qed.

(** The column map of a [Save] whose receiver exceeds the threshold. *)
Lemma Save_columns_exceeded t sc :
  threshold = (sc, None) -> sc < Checks t ->
  Save_columns (ChecksThreshold t)
  = [("success", VBool false); ("pending", VBool false);
     ("error", VString "exceeded checks threshold");
     ("monitoring", VBool false); ("checks", VInt (Checks t))].
Proof.
  intros Hsc Hlt. unfold etx.ChecksThreshold. rewrite Hsc.
  apply Z.ltb_lt in Hlt. by rewrite Hlt.
Qed.

(** C1. Abandonment precedence: when the threshold is configured and the
    counter, at the moment of the write, exceeds it, the write of a pass
    carries the error "exceeded checks threshold" with monitoring, pending
    and success all false, and the incremented counter, whatever the chain
    client answered (query error, pending, receipt error, success or
    failure).  The receiver shows these fields; every row of the store is
    either as it was or shows them, with its other columns as they were; the
    row that [Save] loads is persisted with them, and that row is the row of
    the receiver when its id is not empty. *)
Theorem abandonment_precedence t db c sc :
  threshold = (sc, None) ->
  Clients !! Blockchain t = Some c ->
  sc < GoInt.add (Checks t) 1 ->
  let '(t', db', _) := CheckSuccess t db in
  abandoned t'
  /\ db' = Updates (ID t)
             [("success", VBool false); ("pending", VBool false);
              ("error", VString "exceeded checks threshold");
              ("monitoring", VBool false);
              ("checks", VInt (GoInt.add (Checks t) 1))] db
  /\ (forall k r0, db !! k = Some r0 ->
        db' !! k = Some r0
        \/ exists r, db' !! k = Some r /\ abandoned r
             /\ Checks r = GoInt.add (Checks t) 1 /\ same_frame r0 r)
  /\ (forall k r0, Find_dest (ID t) db = Some k -> db !! k = Some r0 ->
        exists r, db' !! k = Some r /\ abandoned r
          /\ Checks r = GoInt.add (Checks t) 1 /\ same_frame r0 r)
  /\ (forall r0, ID t <> "" -> db !! ID t = Some r0 ->
        exists r, db' !! ID t = Some r /\ abandoned r
          /\ Checks r = GoInt.add (Checks t) 1 /\ same_frame r0 r).
Proof.
  intros Hsc Hc Hlt.
  destruct (CheckSuccess_found t c Hc) as (pre & (Hid & _) & Hck & Hsave).
  specialize (Hsave db).
  destruct (CheckSuccess t db) as [[t' db'] err]. cbn [fst snd] in Hsave.
  rewrite <- Hck in Hlt |- *. rewrite <- Hid.
  assert (t' = (Save pre db).1 /\ db' = (Save pre db).2) as [-> ->]
    by (by rewrite <- Hsave).
  clear Hsave.
  assert (forall k r0, Find_dest (ID pre) db = Some k -> db !! k = Some r0 ->
            exists r, (Save pre db).2 !! k = Some r /\ abandoned r
              /\ Checks r = Checks pre /\ same_frame r0 r) as Hrow
    by (intros k r0; by apply (Save_abandons pre db sc)).
  split_and!.
  - by apply (ChecksThreshold_exceeded pre sc).
  - unfold etx.Save. cbn [snd].
    by rewrite (Save_columns_exceeded pre sc), ChecksThreshold_ID.
  - intros k r0 Hr0.
    destruct (decide (Find_dest (ID pre) db = Some k)) as [Hk|Hk].
    + right. by apply Hrow.
    + left. by rewrite Save_lookup, decide_False.
  - done.
  - intros r0 Hne Hr0. apply Hrow; [|done].
    by rewrite Find_dest_nonempty, Hr0.
Qed.

(** C7. A record whose chain has no client in the registry: the pass returns
    the error "blockchain client not found", the receiver differs from what
    it was in the counter only, which is incremented, and the store is
    untouched; the error is none of those a pass returns when the client
    exists, which all come from the chain client. *)
Theorem client_not_found_aborts t db :
  Clients !! Blockchain t = None ->
  let '(t', db', err) := CheckSuccess t db in
  err = Some (errors_New "blockchain client not found")
  /\ Checks t' = GoInt.add (Checks t) 1
  /\ (GoInt.int_min <= Checks t < GoInt.int_max -> Checks t' = Checks t + 1)
  /\ set_Checks (Checks t) t' = t
  /\ db' = db
  /\ (forall u dbu cu e, Clients !! Blockchain u = Some cu ->
        (CheckSuccess u dbu).2 = Some e ->
        (exists msg, e = clientError msg) /\ Some e <> err).
Proof.
  intros Hc. rewrite CheckSuccess_not_found by done.
  split_and!; try done.
  - intros Hr. by apply GoIntFacts.add_1_exact.
  - by destruct t.
  - intros u dbu cu e Hcu. unfold etx.CheckSuccess, GetBlockchainClient.
    simpl. rewrite Hcu.
    destruct (TransactionByHash Hash cu _) as [[tx []]|msg]; simpl;
      [done| |intros [= <-]; by eauto].
    destruct (TransactionReceipt Hash cu _) as [rc|msg]; simpl;
      [done|intros [= <-]; by eauto].
Qed.

Lemma assign_reviewed_Save_columns t b r :
  assign "reviewed" (VBool b) (assign_all (Save_columns t) r)
  = assign_all (Save_columns t) (assign "reviewed" (VBool b) r).
Proof. reflexivity. Qed.

Lemma Save_dom t db : dom (Save t db).2 = dom db.
Proof. unfold etx.Save. cbn [snd]. apply Updates_dom. Qed.

Lemma Save_SetReviewed_comm t u db :
  (Save t (SetReviewed u db).1).2 = (SetReviewed u (Save t db).2).1.
Proof.
  apply map_eq. intros k. unfold SetReviewed. cbn [fst].
  rewrite Save_lookup, !Update_lookup, Save_lookup.
  rewrite (Find_dest_dom (ID t) db (Update _ _ _ db)) by apply Update_dom.
  rewrite (Find_dest_dom (ID u) db (Save t db).2) by apply Save_dom.
  repeat case_decide; try done.
  destruct (db !! k); [|done]. cbn [fmap option_fmap option_map].
  by rewrite assign_reviewed_Save_columns.
Qed.


(** C5. A record whose counter is below the configured threshold, so that it
    is at most the threshold once incremented, and whose chain reports the
    transaction not pending with a receipt of positive status: the pass
    returns no error and ends with success true, pending and monitoring
    false, the counter one more than before and the error text as it was
    before the pass (empty when it was empty); the write of the pass carries
    these values, and the row of a receiver whose id is not empty is
    persisted with them. *)
Theorem confirmed_success_pass t db c tx rc sc :
  Clients !! Blockchain t = Some c ->
  TransactionByHash Hash c (HexToHash (ID t)) = Got (tx, false) ->
  TransactionReceipt Hash c (Tx_Hash Hash tx) = Got rc ->
  (0 < Status rc)%N ->
  threshold = (sc, None) ->
  GoInt.int_min <= Checks t < sc ->
  let '(t', db', err) := CheckSuccess t db in
  err = None
  /\ Success t' = true /\ Pending t' = false /\ Monitoring t' = false
  /\ Checks t' = Checks t + 1
  /\ Error t' = Error t /\ (Error t = "" -> Error t' = "")
  /\ db' = Updates (ID t)
             [("success", VBool true); ("pending", VBool false);
              ("error", VString (Error t)); ("monitoring", VBool false);
              ("checks", VInt (Checks t + 1))] db
  /\ (ID t <> "" ->
      db' !! ID t =
      (fun r => mkTransaction (ID r) (Blockchain r) (Metadata r) false false
                  (Checks t + 1) true (Reviewed r) (Error t)) <$> db !! ID t).
Proof.
  intros Hc Htx Hrc Hst Hsc Hck.
  pose proof (strconvFacts.Atoi_in_range (os.Getenv env "CHECKS_THRESHOLD")) as Hr.
  rewrite Hsc in Hr. destruct Hr as [_ Hmax]. simpl in Hmax.
  assert (GoInt.add (Checks t) 1 = Checks t + 1) as Hadd
    by (apply GoIntFacts.add_1_exact; lia).
  unfold etx.CheckSuccess, GetBlockchainClient. cbn [ID Blockchain set_Checks].
  rewrite Hc, Htx. cbn [ID set_Pending set_Monitoring]. rewrite Hrc.
  apply N.ltb_lt in Hst. rewrite Hst, Hadd.
  unfold etx.Save. rewrite (ChecksThreshold_within _ sc) by (simpl; done || lia).
  cbn [ID set_Success]. split_and!; try done.
  intros Hid. rewrite Updates_lookup_nonempty, decide_True by done.
  by destruct (db !! ID t).
Qed.

(** The flags of the receiver after a pass over a record that had no success
    and no error text. *)
Lemma CheckSuccess_clean t db :
  Success t = false -> Error t = "" ->
  success_clean (CheckSuccess t db).1.1 /\ monitored_clean (CheckSuccess t db).1.1.
Proof.
  intros Hs He. unfold etx.CheckSuccess, GetBlockchainClient.
  cbn [ID Blockchain set_Checks].
  destruct (Clients !! Blockchain t) as [c|]; [|split; intros ?; flags].
  assert (forall pre,
    (Success pre = true -> Pending pre = false /\ Error pre = "") ->
    (Monitoring pre = true -> Success pre = false /\ Error pre = "") ->
    success_clean (ChecksThreshold pre) /\ monitored_clean (ChecksThreshold pre))
    as Hthr.
  { intros pre H1 H2. unfold etx.ChecksThreshold.
    destruct threshold as [sc [e|]]; [done|].
    destruct (sc <? Checks pre); [|done]. split; intros ?; flags. }
  destruct (TransactionByHash Hash c _) as [[tx []]|msg]; simpl.
  - apply Hthr; intros ?; flags.
  - destruct (TransactionReceipt Hash c _) as [rc|msg]; simpl.
    + destruct (0 <? Status rc)%N; apply Hthr; intros ?; flags.
    + apply Hthr; intros ?; flags.
  - apply Hthr; intros ?; flags.
Qed.

(** The row a pass writes carries the flags of the receiver. *)
Lemma CheckSuccess_row t db k r :
  (CheckSuccess t db).1.2 !! k = Some r ->
  db !! k = Some r
  \/ exists r0, db !! k = Some r0
      /\ r = assign_all (Save_columns (CheckSuccess t db).1.1) r0.
Proof.
  destruct (Clients !! Blockchain t) as [c|] eqn:Hc.
  - destruct (CheckSuccess_found t c Hc) as (pre & _ & _ & ->).
    rewrite Save_lookup. case_decide; [|by left].
    destruct (db !! k) as [r0|]; [|done]. intros [= <-]. right. by exists r0.
  - rewrite CheckSuccess_not_found by done. by left.
Qed.

(** The counter a pass persists: one more than the stored one, when the
    client exists and the counter is not the largest integer. *)
Lemma pass_persists_increment t db c r0 :
  Clients !! Blockchain t = Some c -> ID t <> "" ->
  db !! ID t = Some r0 -> Checks r0 = Checks t ->
  GoInt.int_min <= Checks t < GoInt.int_max ->
  Checks <$> (CheckSuccess t db).1.2 !! ID t = Some (Checks r0 + 1).
Proof.
  intros Hc Hne Hr0 Heq Hr.
  destruct (CheckSuccess_found t c Hc) as (pre & (Hid & _) & Hck & ->).
  rewrite Save_lookup_nonempty, decide_True, Hr0 by congruence.
  cbn [fmap option_fmap option_map].
  rewrite assign_all_Save_columns. cbn [Checks].
  destruct (ChecksThreshold_frame pre) as [_ ->].
  by rewrite Hck, Heq, GoIntFacts.add_1_exact.
Qed.

Lemma CheckSuccess_ID t db : ID (CheckSuccess t db).1.1 = ID t.
Proof.
  destruct (Clients !! Blockchain t) as [c|] eqn:Hc.
  - destruct (CheckSuccess_found t c Hc) as (pre & (Hid & _) & _ & ->).
    unfold etx.Save. cbn [fst]. by rewrite ChecksThreshold_ID.
  - by rewrite CheckSuccess_not_found.
Qed.

End PassFacts.

(** ** The life of a record: creation, passes, mark-reviewed *)

Section LifecycleFacts.
Import etx lifecycle.

Context {Hash : Type} (HexToHash : string -> Hash).
Context (Clients : gmap string (Client Hash)) (env : gmap string string).

Implicit Types (db : gmap string Transaction) (t r : Transaction).

Local Abbreviation engine_step := (lifecycle.engine_step Hash HexToHash Clients env).
Local Abbreviation reachable := (lifecycle.reachable Hash HexToHash Clients env).

Lemma assign_all_Save_clean t r0 :
  success_clean t -> monitored_clean t ->
  success_clean (assign_all (Save_columns t) r0)
  /\ monitored_clean (assign_all (Save_columns t) r0).
Proof. intros H1 H2. by rewrite assign_all_Save_columns. Qed.

Lemma engine_step_clean db db' :
  engine_step db db' -> clean_store db -> clean_store db'.
Proof.
  intros Hstep Hdb k r.
  destruct Hstep as [t db Hs He|t b db Hrow Hmon|t db].
  - unfold New, Create. simpl. destruct (db !! ID t) eqn:Hk; simpl.
    + apply Hdb.
    + rewrite lookup_insert. case_decide; [|apply Hdb].
      intros [= <-]. split; intros ?; flags.
  - destruct (Hdb _ _ Hrow) as [_ Hm].
    destruct (Hm Hmon) as [Hs He]. simpl in Hs, He.
    intros [Hr|(r0 & Hr0 & ->)]%CheckSuccess_row; [by apply (Hdb k)|].
    apply assign_all_Save_clean; by apply CheckSuccess_clean.
  - unfold SetReviewed. cbn [fst]. rewrite Update_lookup.
    case_decide; [|apply Hdb].
    destruct (db !! k) as [r0|] eqn:Hk; [|done]. intros [= <-].
    destruct (Hdb _ _ Hk). by destruct r0.
Qed.

Lemma reachable_clean db : reachable db -> clean_store db.
Proof.
  revert db. apply (rtc_ind_r clean_store).
  - intros k r. by rewrite lookup_empty.
  - intros db db' _ Hstep Hdb. by eapply engine_step_clean.
Qed.

(** Every store reached keeps each row under its own key. *)
Lemma reachable_keyed db : reachable db -> keyed db.
Proof.
  revert db. apply (rtc_ind_r keyed).
  - intros k r. by rewrite lookup_empty.
  - intros db db' _ Hstep Hdb.
    destruct Hstep as [t db Hs He|t b db Hrow Hmon|t db].
    + unfold New, Create. simpl. destruct (db !! ID t) eqn:Hk; simpl; [done|].
      intros k r. rewrite lookup_insert. case_decide; [|apply Hdb].
      by intros [= <-].
    + intros k r [Hr|(r0 & Hr0 & ->)]%CheckSuccess_row; [by apply Hdb|].
      rewrite assign_all_ID. by apply Hdb.
    + unfold SetReviewed. cbn [fst]. intros k r. rewrite Update_lookup.
      case_decide; [|apply Hdb].
      destruct (db !! k) as [r0|] eqn:Hk; [|done]. intros [= <-].
      specialize (Hdb _ _ Hk). by destruct r0.
Qed.

(** C3. The flag invariant: in every store reached from the empty one by
    creating records whose request leaves success false and the error text
    empty, by passes over monitored rows as the sweep read them, and by
    mark-reviewed, a row with success true has pending false and an empty
    error text. *)
Theorem success_invariant db k r :
  reachable db -> db !! k = Some r ->
  Success r = true -> Pending r = false /\ Error r = "".
Proof. intros Hreach Hr. by apply (reachable_clean db Hreach k r). Qed.

End LifecycleFacts.

(** ** The HTTP handlers *)

Section HandlerFacts.
Import etx main.

Implicit Types (db : gmap string Transaction) (t : Transaction) (r : Request).

(** C6. [POST /transaction]: a decoded record whose key is free is stored
    with monitoring true and with every other field, the counter among them,
    as the request body gave it, and the answer is 200 with an empty body; a
    body that cannot be read or decoded, and a record that cannot be created,
    are answered 400 with the error text, the store unchanged. *)
Theorem new_transaction_response r db :
  let '(resp, db') := HandleNewTransaction r db in
  match body r with
  | Decoded t =>
      match db !! ID t with
      | None =>
          resp = Respond 200 (Text "")
          /\ db' = <[ID t := set_Monitoring true t]> db
          /\ (Monitoring <$> db' !! ID t) = Some true
          /\ (Checks <$> db' !! ID t) = Some (Checks t)
      | Some _ =>
          (exists e, resp = http_Error (Error_msg e) 400) /\ db' = db
      end
  | Unreadable e | Undecodable e =>
      resp = http_Error (Error_msg e) 400 /\ db' = db
  | Null => resp = Panic /\ db' = db
  end.
Proof.
  unfold HandleNewTransaction. destruct (body r) as [e|e| |t]; try done.
  unfold New, Create. cbn [ID set_Monitoring].
  destruct (db !! ID t) eqn:Hk.
  - split; [|done]. by eexists.
  - split_and!; try done; by rewrite lookup_insert_eq.
Qed.

Lemma Update_reviewed_twice id b db :
  Update id "reviewed" (VBool b) (Update id "reviewed" (VBool b) db)
  = Update id "reviewed" (VBool b) db.
Proof.
  apply map_eq. intros k. rewrite !Update_lookup.
  rewrite (Find_dest_dom id db (Update _ _ _ db)) by apply Update_dom.
  case_decide; [|done]. by destruct (db !! k).
Qed.



End HandlerFacts.

(** ** The sweep *)

Section SweepFacts.
Import etx sweeping.

Context {Hash : Type} (HexToHash : string -> Hash).
Context (Clients : gmap string (Client Hash)) (env : gmap string string).

Implicit Types (db : gmap string Transaction) (t r : Transaction) (s : sweep).

Local Abbreviation CheckSuccess := (etx.CheckSuccess Hash HexToHash Clients env).
Local Abbreviation step := (etx.step Hash HexToHash Clients env).
Local Abbreviation run := (etx.run Hash HexToHash Clients env).
Local Abbreviation worker_step := (etx.worker_step Hash HexToHash Clients env).
Local Abbreviation CheckMonitoredTransactions :=
  (etx.CheckMonitoredTransactions Hash HexToHash Clients env).

(** The rows the sweep reads are monitored rows of the store. *)
Lemma MonitoredTransactions_spec db x :
  x ∈ (MonitoredTransactions db).1 ->
  Monitoring x = true /\ exists k, db !! k = Some x.
Proof.
  unfold MonitoredTransactions, Find. cbn [fst].
  rewrite list_elem_of_filter. intros [Hw Hx]. split.
  - unfold where_struct in Hw. simpl in Hw.
    unfold cond_field in Hw. simpl in Hw.
    repeat (apply andb_prop in Hw as [Hw ?]).
    by match goal with H : bool_decide (Monitoring x = true) = true |- _ =>
      apply bool_decide_eq_true in H end.
  - apply list_elem_of_fmap in Hx as ([k y] & -> & Hky).
    exists k. by apply elem_of_map_to_list in Hky.
Qed.

(** A monitored row is read, whatever its reviewed flag. *)
Lemma MonitoredTransactions_selects db k r :
  db !! k = Some r -> Monitoring r = true -> r ∈ (MonitoredTransactions db).1.
Proof.
  intros Hr Hm. unfold MonitoredTransactions, Find. cbn [fst].
  apply list_elem_of_filter. split.
  - unfold where_struct, cond_field. simpl. rewrite Hm.
    by rewrite !bool_decide_eq_true_2 by done.
  - apply list_elem_of_fmap. exists (k, r). split; [done|].
    by apply elem_of_map_to_list.
Qed.

Lemma step_writes_confined db0 txs g s s' :
  step g s = Some s' -> writes_confined db0 txs s -> writes_confined db0 txs s'.
Proof.
  intros Hstep (Hst & Hlen & Hin & Hvar & Hrest).
  destruct g as [|w]; simpl in Hstep.
  - unfold main_step in Hstep.
    destruct (at_main s) as [[|x rest]|i|] eqn:Hat; [| | |done].
    + injection Hstep as <-. by split_and!.
    + injection Hstep as <-. unfold writes_confined. cbn.
      assert (x ∈ txs) as Hx by (apply (Hrest _ eq_refl); set_solver).
      split_and!; [done|by rewrite length_insert| | |].
      * intros p [Hp|Hp%list_elem_of_singleton]%elem_of_app; auto.
      * intros _. exists x, x. split_and!; [|done..].
        apply list_lookup_insert_eq. unfold loop_var. lia.
      * intros rest' [= <-]. specialize (Hrest _ eq_refl). set_solver.
    + case_decide; [destruct (tout s) as [|q out]; [done|]|];
        injection Hstep as <-; by split_and!.
  - unfold etx.worker_step in Hstep. case_decide; [|done].
    destruct (tin s) as [|p rest] eqn:Htin.
    + destruct (tin_closed s); [|done]. injection Hstep as <-.
      unfold writes_confined. cbn.
      split_and!; [done|done|by intros ? ?%elem_of_nil|done|done].
    + assert (p = loop_var) as -> by (apply Hin; apply list_elem_of_here).
      destruct (Hvar ltac:(done)) as (x & y & Hx & Hy & Hxy).
      rewrite Hx in Hstep.
      pose proof (CheckSuccess_ID HexToHash Clients env x (store s)) as Hid.
      pose proof (CheckSuccess_lookup_ne_nonempty HexToHash Clients env x
                    (store s)) as Hne.
      destruct (etx.CheckSuccess _ _ _ _ x (store s)) as [[t' db'] err].
      injection Hstep as <-. unfold writes_confined. cbn in *.
      split_and!; [|by rewrite length_insert| | |done].
      * intros Hids k Hk. rewrite Hne; [by apply Hst| |].
        -- rewrite Hxy. by apply Hids.
        -- rewrite Hxy. by apply Hk.
      * intros p Hp. apply Hin. by apply list_elem_of_further.
      * intros _. exists t', y. split_and!; [|done|congruence].
        apply list_lookup_insert_eq. unfold loop_var. lia.
Qed.

Lemma step_counted_passes g s s' :
  step g s = Some s' -> counted_passes s -> counted_passes s'.
Proof.
  intros Hstep Hc. unfold counted_passes in *.
  destruct g as [|w]; simpl in Hstep.
  - unfold main_step in Hstep.
    destruct (at_main s) as [[|x rest]|i|] eqn:Hat; [| | |done].
    + injection Hstep as <-. cbn in *. lia.
    + injection Hstep as <-. cbn in *. rewrite length_app. simpl. lia.
    + case_decide; [destruct (tout s) as [|q out] eqn:Hout; [done|]|];
        injection Hstep as <-; cbn in *; [lia|].
      assert (length (tin s) = 0%nat /\ length (tout s) = 0%nat) as [Hi Ho] by lia.
      apply length_zero_iff_nil in Hi, Ho. split_and!; [lia|done..].
  - unfold etx.worker_step in Hstep. case_decide; [|done].
    destruct (tin s) as [|p rest] eqn:Htin.
    + destruct (tin_closed s); [|done]. injection Hstep as <-.
      cbn. destruct (at_main s); simpl in *; try lia. by destruct Hc as (? & _ & ?).
    + destruct (mem s !! p) as [x|]; [|done].
      destruct (etx.CheckSuccess _ _ _ _ x (store s)) as [[t' db'] err].
      injection Hstep as <-. cbn in *.
      destruct (at_main s); rewrite ?length_app; simpl in *; try lia.
      by destruct Hc as (_ & ? & _).
Qed.

Lemma run_invariant (P : sweep -> Prop) :
  (forall g s s', step g s = Some s' -> P s -> P s') ->
  forall schedule s, P s -> P (run schedule s).
Proof.
  intros Hstep schedule.
  induction schedule as [|g schedule IH]; intros s Hs; simpl; [done|].
  apply IH. destruct (etx.step _ _ _ _ g s) as [s'|] eqn:Hg; simpl; [|done].
  by eapply Hstep.
Qed.

Lemma sweep_start_confined db :
  writes_confined db (MonitoredTransactions db).1 (sweep_start db).
Proof.
  unfold writes_confined. cbn.
  split_and!; [done|done|set_solver|done|by intros ? [= <-]].
Qed.

Lemma sweep_start_counted db : counted_passes (sweep_start db).
Proof. unfold counted_passes. cbn. lia. Qed.

(** Whatever the schedule, a sweep that has returned has made as many passes
    as the snapshot has records, and has left both channels empty. *)
Lemma sweep_returns_after_all_passes schedule db :
  let s := CheckMonitoredTransactions schedule db in
  at_main s = Returned ->
  length (passes s) = length (MonitoredTransactions db).1
  /\ tin s = [] /\ tout s = [].
Proof.
  intros s Hret.
  assert (counted_passes s /\ len_txs s = length (MonitoredTransactions db).1)
    as [Hc Hlen].
  { apply (run_invariant (fun s => counted_passes s
       /\ len_txs s = length (MonitoredTransactions db).1)).
    - intros g s1 s2 Hg [H1 H2]. split; [by eapply step_counted_passes|].
      rewrite <- H2. clear -Hg. destruct g as [|w]; simpl in Hg.
      + unfold main_step in Hg. repeat case_match; by simplify_eq.
      + unfold etx.worker_step in Hg. repeat case_match; by simplify_eq.
    - split; [apply sweep_start_counted|done]. }
  unfold counted_passes in Hc. rewrite Hret in Hc. by rewrite <- Hlen.
Qed.

(** Whatever the schedule, a sweep whose snapshot has no record with the
    empty id writes to rows of its snapshot only. *)
Lemma sweep_writes_snapshot_rows schedule db k :
  (forall x, x ∈ (MonitoredTransactions db).1 -> ID x <> "") ->
  (forall x, x ∈ (MonitoredTransactions db).1 -> ID x <> k) ->
  store (CheckMonitoredTransactions schedule db) !! k = db !! k.
Proof.
  intros Hids Hk.
  assert (writes_confined db (MonitoredTransactions db).1
            (CheckMonitoredTransactions schedule db)) as (Hst & _).
  { apply (run_invariant (writes_confined db (MonitoredTransactions db).1)).
    - intros g s1 s2. apply step_writes_confined.
    - apply sweep_start_confined. }
  by apply Hst.
Qed.

(** In a store keyed by id in which no monitored row has the empty id, the
    records of the snapshot have non-empty ids. *)
Lemma snapshot_ids_nonempty db x :
  keyed db -> (forall r0, db !! "" = Some r0 -> Monitoring r0 = false) ->
  x ∈ (MonitoredTransactions db).1 -> ID x <> "".
Proof.
  intros Hkeyed Hempty [Hx [k Hk]]%MonitoredTransactions_spec Hid.
  rewrite <- (Hkeyed _ _ Hk), Hid in Hk. apply Hempty in Hk. congruence.
Qed.

(** Such a sweep leaves every row that is not monitored as it was. *)
Lemma sweep_unmonitored schedule db k r :
  keyed db -> (forall r0, db !! "" = Some r0 -> Monitoring r0 = false) ->
  db !! k = Some r -> Monitoring r = false ->
  store (CheckMonitoredTransactions schedule db) !! k = Some r.
Proof.
  intros Hkeyed Hempty Hr Hm. rewrite sweep_writes_snapshot_rows; [done| |].
  - intros x Hx. by apply (snapshot_ids_nonempty db).
  - intros x [Hx [k' Hk']]%MonitoredTransactions_spec <-.
    rewrite <- (Hkeyed _ _ Hk') in Hk'. congruence.
Qed.

(** C4. The counter: a pass over a record with a non-empty id whose chain
    has a client, whose stored counter is the one the pass read and is not
    the largest integer, persists the counter plus exactly one; a pass over
    a record whose chain has no client persists nothing; and a whole sweep,
    whatever its schedule, over a store in which no monitored row has the
    empty id, leaves every row with monitoring false as it was. *)
Theorem checks_counter_steps t db c r0 schedule k r :
  (Clients !! Blockchain t = Some c -> ID t <> "" ->
   db !! ID t = Some r0 -> Checks r0 = Checks t ->
   GoInt.int_min <= Checks t < GoInt.int_max ->
   Checks <$> (CheckSuccess t db).1.2 !! ID t = Some (Checks r0 + 1))
  /\ (Clients !! Blockchain t = None -> (CheckSuccess t db).1.2 = db)
  /\ (keyed db ->
      (forall r0, db !! "" = Some r0 -> Monitoring r0 = false) ->
      db !! k = Some r -> Monitoring r = false ->
      store (CheckMonitoredTransactions schedule db) !! k = Some r).
Proof.
  split_and!.
  - apply pass_persists_increment.
  - intros Hc. by rewrite CheckSuccess_not_found.
  - apply sweep_unmonitored.
Qed.

(** With no row to sweep, the main goroutine returns in two steps of its
    own, and no pass is made. *)
Lemma empty_sweep_returns db :
  (MonitoredTransactions db).1 = [] ->
  let s := CheckMonitoredTransactions [Main; Main] db in
  at_main s = Returned /\ passes s = [] /\ store s = db.
Proof.
  intros Hnil. unfold etx.CheckMonitoredTransactions, sweep_start.
  rewrite Hnil. done.
Qed.

End SweepFacts.

(** ** The properties on concrete inputs *)

Section Concrete.
Import etx lifecycle main scenario.

Local Abbreviation CheckSuccess := (etx.CheckSuccess string HexToHash).
Local Abbreviation CheckMonitoredTransactions :=
  (etx.CheckMonitoredTransactions string HexToHash).

(** The scenario of the specification: [{id: 0xabc, chain: eth, checks: 0}],
    threshold 5, not pending, receipt status 1. *)
Example scenario_success :
  CheckSuccess mined threshold_5 (tx_abc 0) {["0xabc" := tx_abc 0]}
  = (mkTransaction "0xabc" "eth" ∅ false false 1 true false "",
     {["0xabc" := mkTransaction "0xabc" "eth" ∅ false false 1 true false ""]},
     None).
Proof. vm_compute. reflexivity. Qed.

(** The same record on a chain that cannot be reached: the error text is
    written, monitoring ends, and the client's error is returned. *)
Example scenario_errored :
  CheckSuccess {["eth" := chain_down]} threshold_5 (tx_abc 0)
    {["0xabc" := tx_abc 0]}
  = (mkTransaction "0xabc" "eth" ∅ false false 1 false false
       "connection refused",
     {["0xabc" := mkTransaction "0xabc" "eth" ∅ false false 1 false false
                    "connection refused"]},
     Some (clientError "connection refused")).
Proof. vm_compute. reflexivity. Qed.

(** The same record with the counter at 6: abandoned. *)
Example scenario_abandoned :
  (CheckSuccess mined threshold_5 (tx_abc 6) {["0xabc" := tx_abc 6]}).1.1
  = mkTransaction "0xabc" "eth" ∅ false false 7 false false
      "exceeded checks threshold".
Proof. vm_compute. reflexivity. Qed.

(** C2, on two monitored rows.  The snapshot is the rows 0xa and 0xb; under
    the schedule [queue_first] the sweep returns after two passes, both on
    0xb: the two queue entries are the one address of the loop variable,
    which holds 0xb when the workers read it.  Row 0xa has had no pass and
    row 0xb two. *)
Theorem sweep_queues_one_address :
  let s := CheckMonitoredTransactions pending threshold_5 queue_first two_rows in
  ID <$> (MonitoredTransactions two_rows).1 = ["0xa"; "0xb"]
  /\ at_main s = Returned
  /\ passes s = ["0xb"; "0xb"]
  /\ Checks <$> store s !! "0xa" = Some 0
  /\ Checks <$> store s !! "0xb" = Some 2.
Proof. vm_compute. by split_and!. Qed.

(** Under a schedule in which a worker takes each entry before the next one
    is queued, the same sweep makes one pass on each row. *)
Example sweep_interleaved :
  let s := CheckMonitoredTransactions pending threshold_5
             [Main; Worker 0; Main; Worker 0; Main; Main; Main; Main] two_rows in
  at_main s = Returned /\ passes s = ["0xa"; "0xb"].
Proof. vm_compute. by split_and!. Qed.

(** A row that is monitored and reviewed is read by the sweep and gets its
    pass. *)
Example reviewed_row_is_swept :
  let row := mkTransaction "0xabc" "eth" ∅ true true 0 false true "" in
  let db : gmap string Transaction := {["0xabc" := row]} in
  let s := CheckMonitoredTransactions pending threshold_5
             [Main; Main; Worker 0; Main; Main] db in
  (MonitoredTransactions db).1 = [row]
  /\ at_main s = Returned
  /\ Checks <$> store s !! "0xabc" = Some 1.
Proof. vm_compute. by split_and!. Qed.

Lemma abandonment_precedence_witness :
  let t := tx_abc 6 in
  let db : gmap string Transaction := {["0xabc" := t]} in
  strconv.Atoi (os.Getenv threshold_5 "CHECKS_THRESHOLD") = (5, None)
  /\ 5 < GoInt.add (Checks t) 1
  /\ abandoned (CheckSuccess mined threshold_5 t db).1.1
  /\ exists r, (CheckSuccess mined threshold_5 t db).1.2 !! "0xabc" = Some r
       /\ abandoned r /\ Checks r = GoInt.add (Checks t) 1 /\ same_frame t r.
Proof.
  intros t db. split; [reflexivity|]. split; [reflexivity|].
  pose proof (abandonment_precedence HexToHash mined threshold_5 t db
                chain_mined 5 eq_refl eq_refl eq_refl) as H.
  destruct (CheckSuccess mined threshold_5 t db) as [[t' db'] err].
  destruct H as (H1 & _ & _ & _ & H5). split; [exact H1|].
  apply (H5 t); [discriminate|reflexivity].
Defined.

(** Mark-reviewed by a receiver with the empty id: the flag goes to the
    first row of the table. *)
Example empty_id_mark_lands_on_first_row :
  let t := mkTransaction "" "" ∅ false false 0 false true "" in
  let db' := (SetReviewed t two_rows).1 in
  Reviewed <$> db' !! "0xa" = Some true
  /\ db' !! "0xb" = two_rows !! "0xb"
  /\ db' !! "" = None.
Proof. vm_compute. by split_and!. Qed.

(** The write of a receiver with the empty id: [Save] loads the first row of
    the table and writes its five columns there; the row of the key 0xa of
    [two_rows] takes the counter of the receiver, and no row is stored under
    the empty id. *)
Example empty_id_write_lands_on_first_row :
  let t := record "" "eth" 7 in
  let db' := (etx.Save threshold_5 t two_rows).2 in
  Find_dest "" two_rows = Some "0xa"
  /\ Checks <$> db' !! "0xa" = Some 7
  /\ Error <$> db' !! "0xa" = Some "exceeded checks threshold"
  /\ db' !! "0xb" = two_rows !! "0xb"
  /\ db' !! "" = None.
Proof. vm_compute. by split_and!. Qed.

Lemma client_not_found_aborts_witness :
  let t := record "0xabc" "unknown" 0 in
  let db : gmap string Transaction := {["0xabc" := t]} in
  mined !! Blockchain t = None
  /\ let '(t', db', err) := CheckSuccess mined threshold_5 t db in
     err = Some (errors_New "blockchain client not found")
     /\ Checks t' = 1 /\ set_Checks 0 t' = t /\ db' = db.
Proof.
  intros t db. split; [reflexivity|].
  pose proof (client_not_found_aborts HexToHash mined threshold_5 t db eq_refl) as H.
  destruct (CheckSuccess mined threshold_5 t db) as [[t' db'] err].
  destruct H as (H1 & H2 & _ & H4 & H5 & _). by split_and!.
Defined.

Lemma confirmed_success_pass_witness :
  let t := tx_abc 0 in
  let db : gmap string Transaction := {["0xabc" := t]} in
  let '(t', db', err) := CheckSuccess mined threshold_5 t db in
  err = None /\ Success t' = true /\ Pending t' = false
  /\ Monitoring t' = false /\ Checks t' = 1 /\ Error t' = "".
Proof.
  intros t db.
  pose proof (confirmed_success_pass HexToHash mined threshold_5 t db
                chain_mined (mkTx string "0xabc") (mkReceipt 1) 5
                eq_refl eq_refl eq_refl eq_refl eq_refl
                ltac:(by vm_compute)) as H.
  destruct (CheckSuccess mined threshold_5 t db) as [[t' db'] err].
  destruct H as (H1 & H2 & H3 & H4 & H5 & H6 & _). by split_and!.
Defined.

(** C5 as the specification words it fails on a record whose counter is the
    threshold, which a successful receipt does not save from abandonment, and
    on a record that carries an error text, which success does not clear. *)
Lemma success_at_threshold_is_abandoned :
  (let t := tx_abc 5 in
   let '(t', _, _) := CheckSuccess mined threshold_5 t {["0xabc" := t]} in
   Checks t <= 5 /\ Success t' = false
   /\ Error t' = "exceeded checks threshold")
  /\ (let t := set_Error "old" (tx_abc 0) in
      let '(t', _, _) := CheckSuccess mined threshold_5 t {["0xabc" := t]} in
      Checks t <= 5 /\ Success t' = true /\ Error t' <> "").
Proof. vm_compute. split_and!; congruence. Qed.

(** A store reached by creating [{id: 0xabc, chain: eth}] and sweeping it
    once on a chain where it is mined. *)
Lemma success_invariant_witness :
  let db := (CheckSuccess mined threshold_5 (tx_abc 0)
               (New (record "0xabc" "eth" 0) ∅).1.2).1.2 in
  exists r, db !! "0xabc" = Some r
    /\ Success r = true /\ Pending r = false /\ Error r = "".
Proof.
  intros db. exists (mkTransaction "0xabc" "eth" ∅ false false 1 true false "").
  split; [vm_compute; reflexivity|]. split; [reflexivity|].
  apply (success_invariant HexToHash mined threshold_5 db "0xabc");
    [|vm_compute; reflexivity|reflexivity].
  eapply rtc_l; [apply (step_create _ _ _ _ (record "0xabc" "eth" 0) ∅);
                 reflexivity|].
  eapply rtc_l; [|apply rtc_refl].
  apply (step_pass _ _ _ _ (tx_abc 0) false); reflexivity.
Defined.

(** C3 as the specification words it fails at creation, which stores the
    success and pending flags of the request as they are, and after a pass
    over a record created with an error text, which success does not
    clear. *)
Lemma created_record_breaks_success_invariant :
  (let t := mkTransaction "0xabc" "eth" ∅ false true 0 true false "" in
   exists r, (New t ∅).1.2 !! "0xabc" = Some r
     /\ Success r = true /\ Pending r = true)
  /\ (let t := mkTransaction "0xabc" "eth" ∅ false false 0 false false "old" in
      let db := (New t ∅).1.2 in
      exists r0 r, db !! "0xabc" = Some r0 /\ Monitoring r0 = true
        /\ (CheckSuccess mined threshold_5 r0 db).1.2 !! "0xabc" = Some r
        /\ Success r = true /\ Error r = "old").
Proof.
  split.
  - eexists. split; [vm_compute; reflexivity|]. by split.
  - eexists _, _. split; [vm_compute; reflexivity|]. split; [reflexivity|].
    split; [vm_compute; reflexivity|]. by split.
Qed.

Lemma checks_counter_steps_witness :
  let finished := mkTransaction "0xb" "eth" ∅ false false 3 true false "" in
  let db : gmap string Transaction :=
    <["0xa" := record "0xa" "eth" 0]> {["0xb" := finished]} in
  let lost := record "0xc" "unknown" 0 in
  Checks <$> (CheckSuccess mined threshold_5 (record "0xa" "eth" 0) db).1.2
               !! "0xa" = Some 1
  /\ (CheckSuccess mined threshold_5 lost {["0xc" := lost]}).1.2
     = {["0xc" := lost]}
  /\ store (CheckMonitoredTransactions mined threshold_5 queue_first db)
       !! "0xb" = Some finished.
Proof.
  intros finished db lost.
  pose proof (checks_counter_steps HexToHash mined threshold_5
                (record "0xa" "eth" 0) db chain_mined (record "0xa" "eth" 0)
                queue_first "0xb" finished) as (H1 & _ & H3).
  pose proof (checks_counter_steps HexToHash mined threshold_5
                lost {["0xc" := lost]} chain_mined lost
                queue_first "0xc" lost) as (_ & H2 & _).
  split_and!.
  - apply H1; [reflexivity|discriminate|reflexivity|reflexivity|].
    unfold GoInt.int_min, GoInt.int_max. cbn [Checks record]. lia.
  - apply H2. reflexivity.
  - apply H3; [|discriminate|reflexivity|reflexivity].
    intros k r [[<- <-]|[_ [<- <-]%lookup_singleton_Some]]%lookup_insert_Some;
      reflexivity.
Defined.

(** C4 as the specification words it fails on a selected record whose chain
    has no client: the sweep reads it and gives it its pass, and the
    persisted counter is what it was, not one more. *)
Lemma unknown_chain_counter_not_persisted :
  let t := record "0xabc" "unknown" 0 in
  let db : gmap string Transaction := {["0xabc" := t]} in
  let s := CheckMonitoredTransactions mined threshold_5
             [Main; Main; Worker 0; Main; Main] db in
  (MonitoredTransactions db).1 = [t]
  /\ Checks <$> (CheckSuccess mined threshold_5 t db).1.2 !! "0xabc"
     <> Some (Checks t + 1)
  /\ at_main s = Returned /\ passes s = ["0xabc"]
  /\ Checks <$> store s !! "0xabc" = Some 0.
Proof. vm_compute. split_and!; congruence. Qed.

(** C6 as the specification words it fails on a request body that gives a
    counter: the record is stored with that counter, not with 0. *)
Lemma created_record_keeps_request_counter :
  let t := mkTransaction "0xabc" "eth" ∅ false false 5 false false "" in
  let '(resp, db') := HandleNewTransaction (mkRequest (Decoded t) ∅ ∅) ∅ in
  resp = Respond 200 (Text "")
  /\ Monitoring <$> db' !! "0xabc" = Some true
  /\ Checks <$> db' !! "0xabc" = Some 5
  /\ Checks <$> db' !! "0xabc" <> Some 0.
Proof. vm_compute. split_and!; congruence. Qed.



End Concrete.

(** * Further properties *)

(** ** One pass, continued *)

Section PassMore.
Import etx lifecycle retry.

Context {Hash : Type} (HexToHash : string -> Hash).
Context (Clients : gmap string (Client Hash)) (env : gmap string string).

Implicit Types (db : gmap string Transaction) (t r : Transaction).

Local Abbreviation ChecksThreshold := (etx.ChecksThreshold env).
Local Abbreviation Save := (etx.Save env).
Local Abbreviation CheckSuccess := (etx.CheckSuccess Hash HexToHash Clients env).
Local Abbreviation threshold := (strconv.Atoi (os.Getenv env "CHECKS_THRESHOLD")).

Lemma ChecksThreshold_budget t :
  within_budget env (Checks t) -> ChecksThreshold t = t.
Proof.
  intros Hb. unfold etx.ChecksThreshold.
  destruct threshold as [sc [e|]] eqn:Hsc; [done|].
  specialize (Hb sc Hsc). apply Z.ltb_ge in Hb. by rewrite Hb.
Qed.

(** X1. When [CHECKS_THRESHOLD] is unset or holds no integer that [Atoi]
    accepts, nothing is ever abandoned: [ChecksThreshold] leaves every record
    as it is, whatever its counter, and [Save] writes the five fields of the
    receiver unchanged. *)
Theorem threshold_unset_disables_abandonment t db :
  threshold.2 <> None ->
  ChecksThreshold t = t
  /\ Save t db = (t, Updates (ID t) (Save_columns t) db).
Proof.
  intros Hthr.
  assert (ChecksThreshold t = t) as Heq.
  { apply ChecksThreshold_budget. intros sc Hsc. by rewrite Hsc in Hthr. }
  split; [done|]. unfold etx.Save. by rewrite Heq.
Qed.

(** The flags of the receiver and of the written row after a pass that has
    a client. *)
Lemma CheckSuccess_flags t c :
  Clients !! Blockchain t = Some c ->
  exists pre,
    same_frame t pre /\ Monitoring pre = Pending pre
    /\ forall db, (CheckSuccess t db).1 = Save pre db.
Proof.
  intros Hc. unfold etx.CheckSuccess, GetBlockchainClient. simpl. rewrite Hc.
  destruct (TransactionByHash Hash c _) as [[tx []]|msg]; simpl.
  - eexists. split_and!; [..|reflexivity]; done.
  - destruct (TransactionReceipt Hash c _) as [rc|msg]; simpl.
    + eexists. split_and!; [..|reflexivity]; by destruct (0 <? Status rc)%N.
    + eexists. split_and!; [..|reflexivity]; done.
  - eexists. split_and!; [..|reflexivity]; done.
Qed.

Lemma ChecksThreshold_flags t :
  Monitoring t = Pending t ->
  Monitoring (ChecksThreshold t) = Pending (ChecksThreshold t).
Proof.
  intros Hm. unfold etx.ChecksThreshold.
  destruct threshold as [sc [e|]]; [done|]. by destruct (sc <? Checks t).
Qed.

Lemma CheckSuccess_monitoring_pending t db c :
  Clients !! Blockchain t = Some c ->
  let '(t', db', _) := CheckSuccess t db in
  Monitoring t' = Pending t'
  /\ (forall k, Find_dest (ID t) db = Some k ->
        Monitoring <$> db' !! k = Some (Monitoring t')
        /\ Pending <$> db' !! k = Some (Pending t')).
Proof.
  intros Hc.
  destruct (CheckSuccess_flags t c Hc) as (pre & (Hid & _) & Hflags & Hsave).
  specialize (Hsave db).
  destruct (CheckSuccess t db) as [[t' db'] err]. simpl in Hsave.
  apply ChecksThreshold_flags in Hflags.
  unfold etx.Save in Hsave. injection Hsave as -> ->. split; [done|].
  intros k Hk. destruct (Find_dest_is_Some _ _ _ Hk) as [r0 Hr0].
  rewrite Updates_lookup, ChecksThreshold_ID, Hid, decide_True, Hr0 by done.
  cbn [fmap option_fmap option_map]. by rewrite assign_all_Save_columns.
Qed.

(** X2. After a pass that reached a chain client, on whatever branch, the
    record is monitored exactly when it is pending: in the receiver, and in
    the row the pass has written, which carries the two flags of the
    receiver; that row is the row of the receiver when its id is not
    empty. *)
Theorem pass_monitors_what_is_pending t db c :
  Clients !! Blockchain t = Some c ->
  let '(t', db', _) := CheckSuccess t db in
  Monitoring t' = Pending t'
  /\ (forall k, Find_dest (ID t) db = Some k ->
        Monitoring <$> db' !! k = Some (Monitoring t')
        /\ Pending <$> db' !! k = Some (Pending t'))
  /\ (ID t <> "" -> Monitoring <$> db' !! ID t = Pending <$> db' !! ID t).
Proof.
  intros Hc.
  pose proof (CheckSuccess_monitoring_pending t db c Hc) as Hflags.
  pose proof (CheckSuccess_lookup_ne HexToHash Clients env t db (ID t)) as Hne.
  destruct (CheckSuccess t db) as [[t' db'] err]. cbn [fst snd] in Hne.
  destruct Hflags as [Hrec Hrow]. split_and!; [done|done|].
  intros Hid. rewrite Find_dest_nonempty in Hrow, Hne by done.
  destruct (db !! ID t) as [r0|] eqn:Hr0.
  - destruct (Hrow (ID t) eq_refl) as [-> ->]. by rewrite Hrec.
  - by rewrite Hne.
Qed.

(** X3. Success is never recorded without a receipt: a pass turns success
    from false to true only if the chain has a client, the transaction is
    reported not pending, its receipt has a positive status, and the
    incremented counter is within the budget. *)
Theorem success_needs_positive_receipt t db :
  Success t = false ->
  Success (CheckSuccess t db).1.1 = true ->
  exists c tx rc,
    Clients !! Blockchain t = Some c
    /\ TransactionByHash Hash c (HexToHash (ID t)) = Got (tx, false)
    /\ TransactionReceipt Hash c (Tx_Hash Hash tx) = Got rc
    /\ (0 < Status rc)%N
    /\ (forall sc, threshold = (sc, None) -> GoInt.add (Checks t) 1 <= sc).
Proof.
  intros Hs. unfold etx.CheckSuccess, GetBlockchainClient.
  cbn [ID Blockchain set_Checks].
  destruct (Clients !! Blockchain t) as [c|] eqn:Hc; [|simpl; congruence].
  assert (forall pre, Success pre = false ->
            Success (ChecksThreshold pre) = true -> False) as Hno.
  { intros pre Hp Ht. apply ChecksThreshold_success in Ht as Heq.
    rewrite Heq in Ht. congruence. }
  destruct (TransactionByHash Hash c _) as [[tx []]|msg] eqn:Htx; simpl.
  - intros Ht. by apply Hno in Ht.
  - destruct (TransactionReceipt Hash c _) as [rc|msg] eqn:Hrc; simpl.
    + destruct (0 <? Status rc)%N eqn:Hst; intros Ht; [|by apply Hno in Ht].
      exists c, tx, rc. split_and!; try done; [by apply N.ltb_lt|].
      intros sc Hsc. apply ChecksThreshold_success in Ht as Heq.
      unfold etx.ChecksThreshold in Heq. rewrite Hsc in Heq. simpl in Heq.
      destruct (sc <? GoInt.add (Checks t) 1) eqn:Hlt; [done|].
      by apply Z.ltb_ge in Hlt.
    + intros Ht. by apply Hno in Ht.
  - intros Ht. by apply Hno in Ht.
Qed.

Lemma CheckSuccess_frame_of t db k :
  frame_of <$> (CheckSuccess t db).1.2 !! k = frame_of <$> db !! k.
Proof.
  destruct (Clients !! Blockchain t) as [c|] eqn:Hc.
  - destruct (CheckSuccess_found HexToHash Clients env t c Hc)
      as (pre & _ & _ & ->).
    rewrite Save_lookup. case_decide; [|done]. by destruct (db !! k).
  - by rewrite CheckSuccess_not_found.
Qed.

Lemma CheckSuccess_dom t db : dom (CheckSuccess t db).1.2 = dom db.
Proof.
  apply set_eq. intros j. rewrite !elem_of_dom.
  rewrite <- (fmap_is_Some frame_of ((CheckSuccess t db).1.2 !! j)).
  rewrite CheckSuccess_frame_of. by rewrite fmap_is_Some.
Qed.

(** X4. A pass changes one row at most, the row that its [Save] loads:
    every other row is as it was, and the store has the keys it had.  For a
    receiver whose id is not empty that row is its own, so every row under
    another key is as it was. *)
Theorem pass_touches_one_row t db k :
  (Find_dest (ID t) db <> Some k -> (CheckSuccess t db).1.2 !! k = db !! k)
  /\ (ID t <> "" -> k <> ID t -> (CheckSuccess t db).1.2 !! k = db !! k)
  /\ dom (CheckSuccess t db).1.2 = dom db.
Proof.
  split_and!.
  - apply CheckSuccess_lookup_ne.
  - intros Hid Hk.
    by apply (CheckSuccess_lookup_ne_nonempty HexToHash Clients env).
  - apply CheckSuccess_dom.
Qed.

Lemma CheckSuccess_keyed t db : keyed db -> keyed (CheckSuccess t db).1.2.
Proof.
  intros Hdb k r [Hr|(r0 & Hr0 & ->)]%CheckSuccess_row; [by apply Hdb|].
  rewrite assign_all_ID. by apply Hdb.
Qed.

(** X5. After a pass that reached a chain client, over a stored row whose
    id is not empty, the next sweep selects the row exactly when the pass
    left it pending: a row confirmed, failed, errored or abandoned is not
    read again. *)
Theorem next_sweep_selects_pending t db c r0 :
  keyed db -> ID t <> "" -> db !! ID t = Some r0 ->
  Clients !! Blockchain t = Some c ->
  let db' := (CheckSuccess t db).1.2 in
  exists r', db' !! ID t = Some r'
    /\ (r' ∈ (MonitoredTransactions db').1 <-> Pending r' = true).
Proof.
  intros Hdb Hid Hr0 Hc db'.
  pose proof (CheckSuccess_keyed t db Hdb) as Hdb'.
  pose proof (CheckSuccess_monitoring_pending t db c Hc) as Hflags.
  unfold db' in *. destruct (CheckSuccess t db) as [[t' db1] err].
  cbn [fst snd] in *. destruct Hflags as [Hrec Hrow].
  destruct (Hrow (ID t)) as [Hm Hp]; [by rewrite Find_dest_nonempty, Hr0|].
  destruct (db1 !! ID t) as [r'|] eqn:Hr'; [|done].
  injection Hm as Hm. injection Hp as Hp.
  exists r'. split; [done|]. split.
  - intros [Hmon _]%MonitoredTransactions_spec. congruence.
  - intros Hpend. apply (MonitoredTransactions_selects db1 (ID t)); congruence.
Qed.

(** One pass over a stored row on a chain that reports the transaction
    pending: the row after the pass. *)
Lemma pending_pass_row r db c tx :
  Clients !! Blockchain r = Some c ->
  TransactionByHash Hash c (HexToHash (ID r)) = Got (tx, true) ->
  ID r <> "" -> db !! ID r = Some r ->
  (CheckSuccess r db).1.2 !! ID r
  = Some (ChecksThreshold
            (mkTransaction (ID r) (Blockchain r) (Metadata r) true true
               (GoInt.add (Checks r) 1) (Success r) (Reviewed r) (Error r))).
Proof.
  intros Hc Htx Hid Hr. unfold etx.CheckSuccess, GetBlockchainClient.
  cbn [ID Blockchain set_Checks]. rewrite Hc, Htx. unfold etx.Save.
  cbn [fst snd]. rewrite ChecksThreshold_ID.
  cbn [ID set_Monitoring set_Pending].
  rewrite Updates_lookup_nonempty, decide_True, Hr by done.
  cbn [fmap option_fmap option_map]. rewrite assign_all_Save_columns.
  match goal with |- context [etx.ChecksThreshold env ?p] =>
    destruct (ChecksThreshold_frame env p) as [(? & ? & ? & ?) ?];
    destruct (etx.ChecksThreshold env p) eqn:Hp end.
  simpl in *. subst. f_equal. symmetry. exact Hp.
Qed.

End PassMore.

(** ** The store operations, continued *)

Section StoreMore.
Import etx main.

Implicit Types (db : gmap string Transaction) (t u r : Transaction).

(** X7. [New] never overwrites: once a record has been submitted under an
    id, whether that call created it or found it there, every later [New]
    with the same id returns an error and leaves the store as it is. *)
Theorem new_never_overwrites t u db :
  ID u = ID t ->
  let '(_, db1, _) := New t db in
  let '(_, db2, err) := New u db1 in
  err <> None /\ db2 = db1.
Proof.
  intros Hid. unfold New, Create. cbn [ID set_Monitoring]. rewrite Hid.
  destruct (db !! ID t) as [r|] eqn:Hr.
  - by rewrite Hr.
  - by rewrite lookup_insert_eq.
Qed.

(** X8. A record created under a free id is stored under that id with
    monitoring true, is in the snapshot of the next sweep whatever flags the
    request carried, and no other row is changed. *)
Theorem created_record_is_swept t db k :
  db !! ID t = None ->
  let '(_, db', err) := New t db in
  err = None
  /\ db' !! ID t = Some (set_Monitoring true t)
  /\ set_Monitoring true t ∈ (MonitoredTransactions db').1
  /\ (k <> ID t -> db' !! k = db !! k)
  /\ (keyed db -> keyed db').
Proof.
  intros Hfree. unfold New, Create. cbn [ID set_Monitoring]. rewrite Hfree.
  assert (<[ID t:=set_Monitoring true t]> db !! ID t
          = Some (set_Monitoring true t)) as Hrow by apply lookup_insert_eq.
  split_and!; try done.
  - by apply (MonitoredTransactions_selects _ (ID t)).
  - intros Hk. by rewrite lookup_insert_ne.
  - intros Hdb j r. rewrite lookup_insert. case_decide; [|apply Hdb].
    by intros [= <-].
Qed.

(** The rows of a store, each under its own key, have pairwise different
    ids. *)
Lemma keyed_rows_NoDup db : keyed db -> NoDup (ID <$> (map_to_list db).*2).
Proof.
  intros Hdb.
  assert (ID <$> (map_to_list db).*2 = (map_to_list db).*1) as ->;
    [|apply NoDup_fst_map_to_list].
  rewrite <- list_fmap_compose. apply list_fmap_ext.
  intros i [k r] Hi. simpl. apply Hdb.
  apply elem_of_map_to_list. by eapply list_elem_of_lookup_2.
Qed.

(** X9. The snapshot of a sweep is the set of rows with monitoring true,
    each once: the reviewed flag of a row plays no part in its selection. *)
Theorem snapshot_is_monitored_rows db r :
  keyed db ->
  (r ∈ (MonitoredTransactions db).1
   <-> db !! ID r = Some r /\ Monitoring r = true)
  /\ NoDup (ID <$> (MonitoredTransactions db).1).
Proof.
  intros Hdb. split; [split|].
  - intros [Hm [k Hk]]%MonitoredTransactions_spec.
    by rewrite (Hdb _ _ Hk).
  - intros [Hr Hm]. by apply (MonitoredTransactions_selects db (ID r)).
  - unfold MonitoredTransactions, Find. cbn [fst].
    eapply sublist_NoDup; [by apply keyed_rows_NoDup|].
    apply fmap_sublist, sublist_filter.
Qed.

(** X10. Mark-reviewed does not take a row out of the sweep: whatever the
    receiver of [SetReviewed], a monitored row is in the snapshot after the
    call, changed in its reviewed flag at most; and the row of a receiver
    whose id is not empty has the flag as it was set. *)
Theorem reviewed_row_stays_in_snapshot t db k r0 :
  db !! k = Some r0 -> Monitoring r0 = true ->
  let db' := (SetReviewed t db).1 in
  (exists b, db' !! k = Some (set_Reviewed b r0)
     /\ set_Reviewed b r0 ∈ (MonitoredTransactions db').1)
  /\ (ID t <> "" -> k = ID t ->
      db' !! k = Some (set_Reviewed (Reviewed t) r0)).
Proof.
  intros Hr0 Hm db'.
  assert (set_Reviewed (Reviewed r0) r0 = r0) as Hsame by (by destruct r0).
  assert (db' !! k
          = Some (if decide (Find_dest (ID t) db = Some k)
                  then set_Reviewed (Reviewed t) r0 else r0)) as Hrow.
  { unfold db', SetReviewed. cbn [fst]. rewrite Update_lookup, Hr0.
    by case_decide. }
  split.
  - case_decide.
    + exists (Reviewed t). split; [done|].
      by apply (MonitoredTransactions_selects db' k).
    + exists (Reviewed r0). rewrite Hsame. split; [done|].
      by apply (MonitoredTransactions_selects db' k).
  - intros Hid ->. rewrite Hrow, decide_True; [done|].
    by rewrite Find_dest_nonempty, Hr0.
Qed.

(** What [HandleSetReviewed] does with a decoded body, by the row that the
    [Find] of [SetReviewed] loads. *)
Lemma HandleSetReviewed_loaded (req : Request) db t txid :
  body req = Decoded t -> vars req !! "txid" = Some txid ->
  HandleSetReviewed req db =
  match Find_dest txid db with
  | Some k =>
      (Respond 200 (Json (from_option (set_Reviewed (Reviewed t))
                            (set_ID txid t) (db !! k))),
       alter (set_Reviewed (Reviewed t)) k db)
  | None => (Respond 200 (Json (set_ID txid t)), db)
  end.
Proof.
  intros Hbody Hid. unfold HandleSetReviewed, SetReviewed.
  rewrite Hbody, Hid. cbn [from_option id ID set_ID Reviewed fst snd].
  rewrite (Find_dest_dom txid db (Update _ _ _ db)) by apply Update_dom.
  unfold Update. destruct (Find_dest txid db) as [k|] eqn:Hk; [|done].
  rewrite lookup_alter_eq. by destruct (db !! k).
Qed.



End StoreMore.

(** ** The sweep under every schedule *)

Section SweepMore.
Import etx lifecycle sweeping scheduling.

Context {Hash : Type} (HexToHash : string -> Hash).
Context (Clients : gmap string (Client Hash)) (env : gmap string string).

Implicit Types (db : gmap string Transaction) (t r : Transaction) (s : sweep).

Local Abbreviation CheckSuccess := (etx.CheckSuccess Hash HexToHash Clients env).
Local Abbreviation step := (etx.step Hash HexToHash Clients env).
Local Abbreviation run := (etx.run Hash HexToHash Clients env).
Local Abbreviation moves := (scheduling.moves Hash HexToHash Clients env).
Local Abbreviation CheckMonitoredTransactions :=
  (etx.CheckMonitoredTransactions Hash HexToHash Clients env).

Lemma step_len_txs g s s' : step g s = Some s' -> len_txs s' = len_txs s.
Proof.
  intros Hg. destruct g as [|w]; simpl in Hg.
  - unfold main_step in Hg. repeat case_match; by simplify_eq.
  - unfold etx.worker_step in Hg. repeat case_match; by simplify_eq.
Qed.

(** The three invariants of a sweep hold after every schedule. *)
Lemma sweep_invariants schedule db :
  let s := CheckMonitoredTransactions schedule db in
  counted_passes s
  /\ len_txs s = length (MonitoredTransactions db).1
  /\ writes_confined db (MonitoredTransactions db).1 s.
Proof.
  apply (run_invariant HexToHash Clients env (fun s =>
    counted_passes s /\ len_txs s = length (MonitoredTransactions db).1
    /\ writes_confined db (MonitoredTransactions db).1 s)).
  - intros g s1 s2 Hg (H1 & H2 & H3). split_and!.
    + by eapply step_counted_passes.
    + by rewrite (step_len_txs g s1 s2).
    + by eapply step_writes_confined.
  - split_and!; [apply sweep_start_counted|done|apply sweep_start_confined].
Qed.

(** X13. Neither channel ever holds more entries than its capacity
    [len(txs)], under any schedule: no send of the sweep can block. *)
Theorem sweep_channels_within_capacity schedule db :
  let s := CheckMonitoredTransactions schedule db in
  (length (tin s) <= length (MonitoredTransactions db).1)%nat
  /\ (length (tout s) <= length (MonitoredTransactions db).1)%nat.
Proof.
  intros s. destruct (sweep_invariants schedule db) as (Hc & Hlen & _).
  fold s in Hc, Hlen. unfold counted_passes in Hc. rewrite <- Hlen.
  destruct (at_main s); [lia|lia|].
  destruct Hc as (_ & -> & ->). simpl. lia.
Qed.

Lemma step_passes_in_snapshot db0 txs g s s' :
  step g s = Some s' -> writes_confined db0 txs s ->
  passes_in_snapshot txs s -> passes_in_snapshot txs s'.
Proof.
  intros Hstep (_ & _ & Hin & Hvar & _) Hp.
  destruct g as [|w]; simpl in Hstep.
  - unfold main_step in Hstep. repeat case_match; by simplify_eq.
  - unfold etx.worker_step in Hstep. case_decide; [|done].
    destruct (tin s) as [|p rest] eqn:Htin.
    + destruct (tin_closed s); [|done]. by injection Hstep as <-.
    + assert (p = loop_var) as -> by (apply Hin; apply list_elem_of_here).
      destruct (Hvar ltac:(done)) as (x & y & Hx & Hy & Hxy).
      rewrite Hx in Hstep.
      destruct (etx.CheckSuccess _ _ _ _ x (store s)) as [[t' db'] err].
      injection Hstep as <-. intros id. cbn.
      intros [Hid|Hid%list_elem_of_singleton]%elem_of_app; [by apply Hp|].
      exists y. split; [done|congruence].
Qed.

Lemma returned_sweep_passes_aux schedule db :
  let s := CheckMonitoredTransactions schedule db in
  at_main s = Returned ->
  length (passes s) = length (MonitoredTransactions db).1
  /\ (forall id, id ∈ passes s ->
      id ∈ ID <$> (MonitoredTransactions db).1).
Proof.
  intros s Hret.
  destruct (sweep_returns_after_all_passes HexToHash Clients env schedule db Hret)
    as (Hlen & _).
  split; [done|]. intros id Hid.
  assert (writes_confined db (MonitoredTransactions db).1 s
          /\ passes_in_snapshot (MonitoredTransactions db).1 s) as [_ Hp].
  { apply (run_invariant HexToHash Clients env (fun s =>
      writes_confined db (MonitoredTransactions db).1 s
      /\ passes_in_snapshot (MonitoredTransactions db).1 s)).
    - intros g s1 s2 Hg [H1 H2]. split.
      + by eapply step_writes_confined.
      + by eapply step_passes_in_snapshot.
    - split; [apply sweep_start_confined|]. intros ? Hin. cbn in Hin.
      by apply elem_of_nil in Hin. }
  destruct (Hp id Hid) as (y & Hy & <-). by apply list_elem_of_fmap_2.
Qed.

(** X14. Under any schedule, a sweep that has returned has made exactly as
    many passes as its snapshot has records, every one of them on a record
    with an id of the snapshot, and has left both channels empty. *)
Theorem returned_sweep_made_all_passes schedule db :
  let s := CheckMonitoredTransactions schedule db in
  at_main s = Returned ->
  length (passes s) = length (MonitoredTransactions db).1
  /\ (forall id, id ∈ passes s ->
      id ∈ ID <$> (MonitoredTransactions db).1)
  /\ tin s = [] /\ tout s = [].
Proof.
  intros s Hret.
  destruct (sweep_returns_after_all_passes HexToHash Clients env schedule db Hret)
    as (_ & Htin & Htout).
  destruct (returned_sweep_passes_aux schedule db Hret) as (Hlen & Hin).
  by split_and!.
Qed.

(** X15. A snapshot of one record is swept correctly under every schedule:
    when the sweep has returned, it has made one pass, on that record. *)
Theorem single_record_sweep_is_exact schedule db x :
  (MonitoredTransactions db).1 = [x] ->
  let s := CheckMonitoredTransactions schedule db in
  at_main s = Returned -> passes s = [ID x].
Proof.
  intros Hx s Hret.
  destruct (returned_sweep_passes_aux schedule db Hret) as (Hlen & Hin).
  rewrite Hx in Hlen, Hin. simpl in Hlen.
  fold s in Hlen, Hin.
  destruct (passes s) as [|id [|id' ps]]; simplify_eq/=.
  f_equal. specialize (Hin id ltac:(left)).
  by apply list_elem_of_singleton in Hin.
Qed.

Lemma step_workers_wait g s s' :
  step g s = Some s' -> workers_wait s -> workers_wait s'.
Proof.
  intros Hstep [Hex Hcl]. destruct g as [|w]; simpl in Hstep.
  - unfold main_step in Hstep.
    destruct (at_main s) as [[|x rest]|i|] eqn:Hat; [| | |done].
    + injection Hstep as <-. split; cbn; [|done].
      intros v [_ Hc]%Hex. by destruct (Hcl Hc []).
    + injection Hstep as <-. split; cbn.
      * intros v [_ Hc]%Hex. by destruct (Hcl Hc (x :: rest)).
      * intros Hc. by destruct (Hcl Hc (x :: rest)).
    + case_decide; [destruct (tout s) as [|q out]; [done|]|];
        injection Hstep as <-; split; cbn; done.
  - unfold etx.worker_step in Hstep. case_decide; [|done].
    destruct (tin s) as [|p rest] eqn:Htin.
    + destruct (tin_closed s) eqn:Hclosed; [|done]. injection Hstep as <-.
      split; cbn; [|intros _; by apply Hcl].
      intros v _. done.
    + destruct (mem s !! p) as [x|]; [|done].
      destruct (etx.CheckSuccess _ _ _ _ x (store s)) as [[t' db'] err].
      injection Hstep as <-. split; cbn; [|done].
      intros v [? _]%Hex. done.
Qed.

(** X16. A sweep cannot deadlock: under any schedule, as long as the main
    goroutine has not returned, the main goroutine or the first worker can
    take a step. *)
Theorem sweep_never_deadlocks schedule db :
  let s := CheckMonitoredTransactions schedule db in
  at_main s <> Returned ->
  is_Some (step Main s) \/ is_Some (step (Worker 0) s).
Proof.
  intros s Hrun.
  destruct (sweep_invariants schedule db) as (Hc & _ & Hw). fold s in Hc, Hw.
  assert (workers_wait s) as [Hex _].
  { apply (run_invariant HexToHash Clients env workers_wait).
    - intros g s1 s2. apply step_workers_wait.
    - split; cbn; [|done]. intros v Hv. by apply elem_of_empty in Hv. }
  destruct Hw as (_ & Hmem & Hin & _).
  unfold counted_passes in Hc. simpl. unfold main_step, etx.worker_step.
  destruct (at_main s) as [[|x rest]|i|] eqn:Hat; [by left..| |done].
  case_decide as Hi; [|by left].
  destruct (tout s) as [|q out] eqn:Hout; [|by left]. right.
  destruct (tin s) as [|p rest] eqn:Htin; [simpl in Hc; lia|].
  rewrite decide_True.
  - assert (p = loop_var) as -> by (apply Hin; apply list_elem_of_here).
    destruct (mem s) as [|m0 ms] eqn:Hm; [done|]. simpl.
    by destruct (etx.CheckSuccess _ _ _ _ m0 (store s)) as [[t' db'] err].
  - split; [unfold workers; lia|]. by intros [? _]%Hex.
Qed.

Lemma step_steps_left g s s' :
  step g s = Some s' -> (steps_left s' < steps_left s)%nat.
Proof.
  intros Hstep. unfold steps_left, main_left.
  destruct g as [|w]; simpl in Hstep.
  - unfold main_step in Hstep.
    destruct (at_main s) as [[|x rest]|i|] eqn:Hat; [| | |done].
    + injection Hstep as <-. cbn. lia.
    + injection Hstep as <-. cbn. rewrite length_app. simpl. lia.
    + case_decide; [destruct (tout s) as [|q out]; [done|]|];
        injection Hstep as <-; cbn; lia.
  - unfold etx.worker_step in Hstep. case_decide as Hw; [|done].
    destruct Hw as [Hlt Hnew].
    destruct (tin s) as [|p rest] eqn:Htin.
    + destruct (tin_closed s); [|done]. injection Hstep as <-.
      cbn [at_main tin exited len_txs length].
      assert ((set_seq 0 workers ∖ ({[w]} ∪ exited s) : gset nat)
              ⊂ set_seq 0 workers ∖ exited s) as Hsub%subset_size; [|lia].
      split.
      { intros v [Hv Hn]%elem_of_difference. apply elem_of_difference.
        split; [done|]. intros Hv'. apply Hn, elem_of_union. by right. }
      intros Hall.
      assert (w ∈ (set_seq 0 workers ∖ exited s : gset nat)) as Hin.
      { apply elem_of_difference. split; [|done].
        apply elem_of_set_seq. lia. }
      apply Hall, elem_of_difference in Hin as [_ Hn].
      apply Hn, elem_of_union. left. by apply elem_of_singleton.
    + destruct (mem s !! p) as [x|]; [|done].
      destruct (etx.CheckSuccess _ _ _ _ x (store s)) as [[t' db'] err].
      injection Hstep as <-. cbn. lia.
Qed.

Lemma moves_bounded schedule : forall s,
  moves schedule s -> (length schedule <= steps_left s)%nat.
Proof.
  induction schedule as [|g schedule IH]; intros s Hm; simpl; [lia|].
  simpl in Hm. destruct (etx.step _ _ _ _ g s) as [s'|] eqn:Hg; [|done].
  apply IH in Hm. apply step_steps_left in Hg. lia.
Qed.

(** X17. A sweep terminates: a schedule in which every goroutine named can
    move when its turn comes has at most 3 N + 12 steps, for a snapshot of N
    records. *)
Theorem sweep_terminates schedule db :
  moves schedule (sweep_start db) ->
  (length schedule <= 3 * length (MonitoredTransactions db).1 + 12)%nat.
Proof.
  intros Hm%moves_bounded.
  assert (steps_left (sweep_start db)
          = (3 * length (MonitoredTransactions db).1 + 12)%nat) as <-; [|done].
  unfold steps_left, main_left, sweep_start.
  cbn [at_main tin exited len_txs length].
  rewrite difference_empty_L, size_set_seq. unfold workers. lia.
Qed.

Lemma step_frame_of g s s' k :
  step g s = Some s' ->
  frame_of <$> store s' !! k = frame_of <$> store s !! k.
Proof.
  intros Hstep. destruct g as [|w]; simpl in Hstep.
  - unfold main_step in Hstep. repeat case_match; by simplify_eq.
  - unfold etx.worker_step in Hstep. case_decide; [|done].
    destruct (tin s) as [|p rest] eqn:Htin.
    + destruct (tin_closed s); [|done]. by injection Hstep as <-.
    + destruct (mem s !! p) as [x|]; [|done].
      pose proof (CheckSuccess_frame_of HexToHash Clients env x (store s) k) as Hf.
      destruct (etx.CheckSuccess _ _ _ _ x (store s)) as [[t' db'] err].
      by injection Hstep as <-.
Qed.

Lemma sweep_frame_of schedule db k :
  frame_of <$> store (CheckMonitoredTransactions schedule db) !! k
  = frame_of <$> db !! k.
Proof.
  apply (run_invariant HexToHash Clients env (fun s =>
    frame_of <$> store s !! k = frame_of <$> db !! k)); [|done].
  intros g s1 s2 Hg <-. by eapply step_frame_of.
Qed.

Lemma sweep_dom schedule db :
  dom (store (CheckMonitoredTransactions schedule db)) = dom db.
Proof.
  apply set_eq. intros j. rewrite !elem_of_dom.
  rewrite <- (fmap_is_Some frame_of (store _ !! j)), sweep_frame_of.
  by rewrite fmap_is_Some.
Qed.

Lemma sweep_keyed schedule db :
  keyed db -> keyed (store (CheckMonitoredTransactions schedule db)).
Proof.
  intros Hdb j r Hr. pose proof (sweep_frame_of schedule db j) as Hf.
  rewrite Hr in Hf. simpl in Hf.
  destruct (db !! j) as [r0|] eqn:Hr0; [|done].
  injection Hf as Hid _. rewrite Hid. by apply Hdb.
Qed.

(** X18. Under any schedule a sweep creates no row and deletes none, and
    leaves in every row the id, the chain, the metadata and the reviewed
    flag as they were; so the store stays keyed by id. *)
Theorem sweep_keeps_frame schedule db k :
  let s := CheckMonitoredTransactions schedule db in
  frame_of <$> store s !! k = frame_of <$> db !! k
  /\ dom (store s) = dom db
  /\ (keyed db -> keyed (store s)).
Proof.
  intros s. split_and!;
    [apply sweep_frame_of|apply sweep_dom|apply sweep_keyed].
Qed.

End SweepMore.

(** ** The other handlers, and the start of the process *)

Section ServingFacts.
Import etx lifecycle main gostrings.

Context {Hash : Type} (HexToHash : string -> Hash).
Context (Find_nil : gmap string Transaction -> list Transaction).
Context (ChainID : Client Hash -> reply Z).
Context (Dial : string -> reply (Client Hash)).

Implicit Types (db : gmap string Transaction) (t x : Transaction).
Implicit Types (req : Request) (Clients : gmap string (Client Hash)).

Local Abbreviation HandleGetTransactions := (main.HandleGetTransactions Find_nil).
Local Abbreviation HandleHealthCheck := (main.HandleHealthCheck Hash ChainID).
Local Abbreviation dial_endpoints := (main.dial_endpoints Hash Dial).
Local Abbreviation init_Clients := (main.init_Clients Hash Dial).
Local Abbreviation sweeps := (main.sweeps Hash HexToHash).
Local Abbreviation worker := (main.worker Hash HexToHash).

Lemma Paginate_Limit req : 1 <= Limit (Paginate req) <= 100.
Proof. unfold Paginate. cbn [Limit]. repeat case_decide; lia. Qed.

Lemma Scopes_length p rows :
  (length (Scopes p rows) <= Z.to_nat (Limit p))%nat.
Proof. unfold Scopes. rewrite length_take. lia. Qed.

Lemma Scopes_elem_of p rows x : x ∈ Scopes p rows -> x ∈ rows.
Proof.
  unfold Scopes. intros Hx.
  eapply (subseteq_drop (Z.to_nat (Offset p))), subseteq_take, Hx.
Qed.

(** X19. [POST /transactions] never answers more than a page: the page size
    is between 1 and 100 for every request, and a request whose body can be
    read and decoded is answered 200 with at most that many records; a body
    that cannot be read or decoded is answered 400 with the error text. *)
Theorem query_answers_at_most_a_page req db :
  1 <= Limit (Paginate req) <= 100
  /\ match HandleGetTransactions req db with
     | Rows code ot =>
         code = 200
         /\ (length ot <= Z.to_nat (Limit (Paginate req)) <= 100)%nat
     | Refused resp =>
         exists e, (body req = Unreadable e \/ body req = Undecodable e)
                   /\ resp = http_Error (Error_msg e) 400
     end.
Proof.
  pose proof (Paginate_Limit req) as Hl. split; [done|].
  unfold main.HandleGetTransactions.
  destruct (body req) as [e|e| |t]; [by eauto|by eauto|..];
    (split; [done|]); split; [apply Scopes_length|lia|apply Scopes_length|lia].
Qed.

(** X20. The records [POST /transactions] answers are rows of the store that
    agree with the decoded filter on each of its members that is not the
    zero value of its type; false, 0 and the empty string select nothing. *)
Theorem query_rows_match_filter req db t :
  body req = Decoded t ->
  exists ot, HandleGetTransactions req db = Rows 200 ot
  /\ (forall x, x ∈ ot ->
        (exists k, db !! k = Some x)
        /\ (ID t <> "" -> ID x = ID t)
        /\ (Blockchain t <> "" -> Blockchain x = Blockchain t)
        /\ (Metadata t <> ∅ -> Metadata x = Metadata t)
        /\ (Monitoring t = true -> Monitoring x = true)
        /\ (Pending t = true -> Pending x = true)
        /\ (Checks t <> 0 -> Checks x = Checks t)
        /\ (Success t = true -> Success x = true)
        /\ (Reviewed t = true -> Reviewed x = true)
        /\ (Error t <> "" -> Error x = Error t)).
Proof.
  intros Hbody. unfold main.HandleGetTransactions. rewrite Hbody.
  eexists. split; [reflexivity|].
  intros x Hx%Scopes_elem_of. unfold Find in Hx.
  apply list_elem_of_filter in Hx as [Hw Hx].
  apply list_elem_of_fmap in Hx as ([k y] & -> & Hky).
  apply elem_of_map_to_list in Hky. simpl in *.
  split; [by exists k|].
  unfold where_struct, cond_field in Hw.
  repeat (apply andb_prop in Hw as [Hw ?]).
  repeat match goal with
         | H : _ || _ = true |- _ =>
             apply orb_prop in H as [H%bool_decide_eq_true|H%bool_decide_eq_true]
         end;
    split_and!; intros ?; congruence.
Qed.

(** X21. [GET /status/healthz] answers 200 and the text healthy exactly when
    the [ChainID] call of every configured client succeeds, in particular
    when no client is configured; otherwise it answers 500 with the error
    text of a client that failed. *)
Theorem health_check_reports_failures Clients :
  (HandleHealthCheck Clients = Respond 200 (Text "healthy")
   <-> forall name c, Clients !! name = Some c -> exists n, ChainID c = Got n)
  /\ (HandleHealthCheck Clients = Respond 200 (Text "healthy")
      \/ exists name c msg,
           Clients !! name = Some c /\ ChainID c = Failed msg
           /\ HandleHealthCheck Clients = http_Error msg 500).
Proof.
  unfold main.HandleHealthCheck.
  set (failing := fun nc : string * Client Hash =>
         match ChainID nc.2 with Failed msg => Some msg | Got _ => None end).
  destruct (omap failing (map_to_list Clients)) as [|msg rest] eqn:Hf.
  - split; [|by left]. split; [|done]. intros _ name c Hc.
    apply elem_of_map_to_list in Hc.
    destruct (ChainID c) as [n|msg] eqn:Hid; [by eauto|].
    assert (msg ∈ omap failing (map_to_list Clients)) as Hin.
    { apply list_elem_of_omap. exists (name, c). split; [done|].
      unfold failing. simpl. by rewrite Hid. }
    rewrite Hf in Hin. by apply elem_of_nil in Hin.
  - assert (msg ∈ omap failing (map_to_list Clients)) as Hin
      by (rewrite Hf; apply list_elem_of_here).
    apply list_elem_of_omap in Hin as ([name c] & Hnc & Hmsg).
    apply elem_of_map_to_list in Hnc. unfold failing in Hmsg. simpl in Hmsg.
    destruct (ChainID c) as [n|msg'] eqn:Hid; [done|]. injection Hmsg as ->.
    split.
    + split; [done|]. intros Hall. destruct (Hall name c Hnc) as [n Hn].
      congruence.
    + right. by exists name, c, msg.
Qed.

Lemma Split_length s sep : length (Split s sep) = S (Count s sep).
Proof.
  induction s as [|c s IH]; simpl; [done|].
  case_decide; simpl; [by rewrite IH|].
  destruct (Split s sep) as [|piece rest]; simpl in *; lia.
Qed.

Lemma dial_endpoints_malformed pre : forall e rest C0,
  (forall e', e' ∈ pre ->
     exists s0 s1 c,
       Split (TrimSpace e') "="%char = [s0; s1]
       /\ Dial (TrimSpace s1) = Got c) ->
  Count (TrimSpace e) "="%char <> 1%nat ->
  dial_endpoints (pre ++ e :: rest) C0
  = Fatal "ETH_ENDPOINTS must be in the form of '<name>=<endpoint>'".
Proof.
  induction pre as [|e0 pre IH]; intros e rest C0 Hpre He.
  - cbn [app main.dial_endpoints].
    pose proof (Split_length (TrimSpace e) "="%char) as Hlen.
    destruct (Split (TrimSpace e) "="%char) as [|s0 [|s1 [|s2 ss]]];
      try done.
    simpl in Hlen. lia.
  - cbn [app main.dial_endpoints].
    destruct (Hpre e0) as (s0 & s1 & c & -> & ->); [left|].
    apply IH; [|done]. intros e' He'. apply Hpre. by right.
Qed.

(** X22. An entry of [ETH_ENDPOINTS] that, once trimmed, has no = or more
    than one is fatal with the message about the form, when the entries
    before it were dialled, and whatever follows it. *)
Theorem malformed_endpoint_is_fatal env pre e rest :
  Split (os.Getenv env "ETH_ENDPOINTS") ","%char = pre ++ e :: rest ->
  (forall e', e' ∈ pre ->
     exists s0 s1 c,
       Split (TrimSpace e') "="%char = [s0; s1]
       /\ Dial (TrimSpace s1) = Got c) ->
  Count (TrimSpace e) "="%char <> 1%nat ->
  init_Clients env
  = Fatal "ETH_ENDPOINTS must be in the form of '<name>=<endpoint>'".
Proof.
  intros Hsplit Hpre He. unfold main.init_Clients. rewrite Hsplit.
  by apply dial_endpoints_malformed.
Qed.

(** Without [ETH_ENDPOINTS], or with it empty, the single empty entry is
    such an entry: the process does not start. *)
Lemma endpoints_unset_is_fatal env :
  os.Getenv env "ETH_ENDPOINTS" = "" ->
  init_Clients env
  = Fatal "ETH_ENDPOINTS must be in the form of '<name>=<endpoint>'".
Proof.
  intros Henv. unfold main.init_Clients. rewrite Henv.
  apply (dial_endpoints_malformed [] "" []).
  - intros e' He'. by apply elem_of_nil in He'.
  - vm_compute. lia.
Qed.

Lemma dial_endpoints_running entries : forall C0 C,
  dial_endpoints entries C0 = Running C ->
  (forall e, e ∈ entries ->
     exists s0 s1 c,
       Split (TrimSpace e) "="%char = [s0; s1]
       /\ Dial (TrimSpace s1) = Got c)
  /\ (forall name,
       is_Some (C !! name) <->
       is_Some (C0 !! name)
       \/ exists e s0 s1,
            e ∈ entries /\ Split (TrimSpace e) "="%char = [s0; s1]
            /\ name = TrimSpace s0).
Proof.
  induction entries as [|e entries IH]; intros C0 C Hrun.
  - injection Hrun as <-. split.
    + intros e He. by apply elem_of_nil in He.
    + intros name. split; [by left|]. intros [?|(e & ? & ? & He & _)]; [done|].
      by apply elem_of_nil in He.
  - cbn [main.dial_endpoints] in Hrun.
    destruct (Split (TrimSpace e) "="%char) as [|s0 [|s1 [|s2 ss]]] eqn:Hss;
      try done.
    destruct (Dial (TrimSpace s1)) as [c|msg] eqn:Hd; [|done].
    apply IH in Hrun as [Hall Hdom]. split.
    + intros e' [->|He']%elem_of_cons; [by exists s0, s1, c|by apply Hall].
    + intros name. rewrite Hdom. split.
      * intros [Hin|(e' & t0 & t1 & He' & Hsp & ->)].
        -- apply lookup_insert_is_Some in Hin as [<-|[_ Hin]]; [|by left].
           right. exists e, s0, s1. split_and!; [left|done..].
        -- right. exists e', t0, t1. split_and!; [by right|done..].
      * intros [Hin|(e' & t0 & t1 & [->|He']%elem_of_cons & Hsp & ->)].
        -- left. apply lookup_insert_is_Some.
           destruct (decide (TrimSpace s0 = name)); [by left|by right].
        -- left. rewrite Hss in Hsp. injection Hsp as <- <-.
           apply lookup_insert_is_Some. by left.
        -- right. by exists e', t0, t1.
Qed.

(** X23. When [init] gets through [ETH_ENDPOINTS], every entry between
    commas has, once trimmed, exactly one = and an endpoint that could be
    dialled, and the names the registry resolves are exactly the trimmed
    names of the entries; so an endpoint that contains = is never
    accepted. *)
Theorem endpoints_fill_the_registry env Clients name :
  init_Clients env = Running Clients ->
  let entries := Split (os.Getenv env "ETH_ENDPOINTS") ","%char in
  (forall e, e ∈ entries ->
     Count (TrimSpace e) "="%char = 1%nat
     /\ exists s0 s1 c,
          Split (TrimSpace e) "="%char = [s0; s1]
          /\ Dial (TrimSpace s1) = Got c)
  /\ ((exists c, GetBlockchainClient Hash Clients name = Ok c)
      <-> exists e s0 s1,
            e ∈ entries /\ Split (TrimSpace e) "="%char = [s0; s1]
            /\ name = TrimSpace s0).
Proof.
  intros Hrun entries.
  apply dial_endpoints_running in Hrun as [Hall Hdom]. split.
  - intros e He. destruct (Hall e He) as (s0 & s1 & c & Hsp & Hd).
    split; [|by exists s0, s1, c].
    pose proof (Split_length (TrimSpace e) "="%char) as Hlen.
    rewrite Hsp in Hlen. simpl in Hlen. lia.
  - unfold GetBlockchainClient. split.
    + intros [c Hc]. destruct (Clients !! name) as [c'|] eqn:Hn; [|done].
      destruct (proj1 (Hdom name) ltac:(by eexists)) as [[? Hemp]|Hin];
        [by rewrite lookup_empty in Hemp|done].
    + intros Hin. destruct (proj2 (Hdom name) (or_intror Hin)) as [c Hc].
      rewrite Hc. by eexists.
Qed.

Lemma sweeps_keep rounds : forall Clients env db,
  keyed db -> (forall r0, db !! "" = Some r0 -> Monitoring r0 = false) ->
  keyed (sweeps Clients env rounds db)
  /\ dom (sweeps Clients env rounds db) = dom db
  /\ forall k r, db !! k = Some r -> Monitoring r = false ->
       sweeps Clients env rounds db !! k = Some r.
Proof.
  induction rounds as [|schedule rounds IH]; intros Clients env db Hdb Hempty;
    [done|].
  cbn [main.sweeps].
  pose proof (sweep_keyed HexToHash Clients env schedule db Hdb) as Hk.
  pose proof (sweep_dom HexToHash Clients env schedule db) as Hd.
  pose proof (fun k r => sweep_unmonitored HexToHash Clients env schedule db
                           k r Hdb Hempty) as Hu.
  destruct (at_main _); [by split_and!| by split_and!|].
  destruct (IH Clients env _ Hk) as (Hk' & Hd' & Hu').
  { intros r0 Hr0. destruct (db !! "") as [r1|] eqn:Hr1.
    - specialize (Hempty r1 eq_refl). rewrite (Hu "" r1 Hr1 Hempty) in Hr0.
      by injection Hr0 as <-.
    - apply (elem_of_dom_2 (D := gset string)) in Hr0. rewrite Hd in Hr0.
      apply elem_of_dom in Hr0 as [? ?]. congruence. }
  split_and!; [done|congruence|]. intros k r Hr Hm. apply Hu'; [|done].
  by apply Hu.
Qed.


End ServingFacts.

(** ** The retry budget of a row *)

Section RetryBudget.
Import etx lifecycle sweeping scheduling retry main.

Context {Hash : Type} (HexToHash : string -> Hash).
Context (Clients : gmap string (Client Hash)) (env : gmap string string).

Implicit Types (db : gmap string Transaction) (t r x : Transaction) (s : sweep).

Local Abbreviation ChecksThreshold := (etx.ChecksThreshold env).
Local Abbreviation CheckSuccess := (etx.CheckSuccess Hash HexToHash Clients env).
Local Abbreviation step := (etx.step Hash HexToHash Clients env).
Local Abbreviation CheckMonitoredTransactions :=
  (etx.CheckMonitoredTransactions Hash HexToHash Clients env).
Local Abbreviation sweeps := (main.sweeps Hash HexToHash Clients env).
Local Abbreviation returning := (retry.returning Hash HexToHash Clients env).
Local Abbreviation threshold := (strconv.Atoi (os.Getenv env "CHECKS_THRESHOLD")).

Lemma step_single_pass db0 x g s s' :
  step g s = Some s' -> counted_passes s -> len_txs s = 1%nat ->
  single_pass db0 x (CheckSuccess x db0).1.2 s ->
  single_pass db0 x (CheckSuccess x db0).1.2 s'.
Proof.
  intros Hstep Hc Hlen Hs. unfold counted_passes in Hc.
  destruct g as [|w]; simpl in Hstep.
  - unfold main_step in Hstep.
    destruct (at_main s) as [[|y rest]|i|] eqn:Hat; [| | |done].
    + injection Hstep as <-.
      destruct Hs as [(H1 & H2 & H3 & H4 & H5 & H6)|(H1 & H2 & H3)];
        [left|right]; cbn; by split_and!.
    + injection Hstep as <-.
      destruct Hs as [(H1 & H2 & H3 & H4 & H5 & H6)|(H1 & H2 & H3)].
      * left. cbn. specialize (H6 _ Hat).
        assert (y = x) as ->.
        { apply list_elem_of_singleton, H6. left. }
        split_and!; [done|done|by rewrite length_insert| | |].
        -- intros _. apply list_lookup_insert_eq. unfold loop_var. lia.
        -- intros p [Hp|Hp%list_elem_of_singleton]%elem_of_app; auto.
        -- intros rest' [= <-]. intros z Hz. apply H6. by right.
      * destruct (passes s); [done|]. simpl in Hc. lia.
    + case_decide; [destruct (tout s) as [|q out]; [done|]|];
        injection Hstep as <-;
        (destruct Hs as [(H1 & H2 & H3 & H4 & H5 & H6)|(H1 & H2 & H3)];
         [left|right]; cbn; by split_and!).
  - unfold etx.worker_step in Hstep. case_decide; [|done].
    destruct (tin s) as [|p rest] eqn:Htin.
    + destruct (tin_closed s); [|done]. injection Hstep as <-.
      destruct Hs as [(H1 & H2 & H3 & H4 & H5 & H6)|(H1 & H2 & H3)];
        [left|right]; cbn; rewrite ?Htin; split_and!; try done.
      intros p Hp. by apply elem_of_nil in Hp.
    + destruct Hs as [(H1 & H2 & H3 & H4 & H5 & H6)|(H1 & H2 & H3)];
        [|congruence].
      rewrite Htin in H4, H5.
      assert (p = loop_var) as -> by (apply H5; left).
      rewrite (H4 ltac:(done)), H2 in Hstep.
      destruct (etx.CheckSuccess _ _ _ _ x db0) as [[t' db'] err].
      injection Hstep as <-. right. cbn. split_and!; [|done|].
      * rewrite H1. done.
      * rewrite H1 in Hc. destruct rest as [|q rest]; [done|].
        destruct (at_main s); simpl in Hc; [lia|lia|].
        by destruct Hc as (_ & ? & _).
Qed.

(** A sweep over a snapshot of one record, once it has returned, has left
    the store as one pass on that record leaves it, whatever the schedule. *)
Lemma single_sweep_store schedule db x :
  (MonitoredTransactions db).1 = [x] ->
  let s := CheckMonitoredTransactions schedule db in
  at_main s = Returned -> store s = (CheckSuccess x db).1.2.
Proof.
  intros Hx s Hret.
  assert (counted_passes s /\ len_txs s = 1%nat
          /\ single_pass db x (CheckSuccess x db).1.2 s) as (Hc & Hlen & Hs).
  { apply (run_invariant HexToHash Clients env (fun s =>
      counted_passes s /\ len_txs s = 1%nat
      /\ single_pass db x (CheckSuccess x db).1.2 s)).
    - intros g s1 s2 Hg (H1 & H2 & H3). split_and!.
      + by eapply step_counted_passes.
      + by rewrite (step_len_txs HexToHash Clients env g s1 s2).
      + by eapply step_single_pass.
    - split_and!; [apply sweep_start_counted| |].
      + unfold sweep_start. cbn [len_txs]. by rewrite Hx.
      + left. unfold sweep_start. rewrite Hx. cbn.
        split_and!; try done.
        * intros p Hp. by apply elem_of_nil in Hp.
        * by intros rest [= <-]. }
  unfold counted_passes in Hc. rewrite Hret in Hc.
  destruct Hc as (Hp & _).
  destruct Hs as [(H1 & _)|(_ & H2 & _)]; [|done].
  rewrite H1, Hlen in Hp. done.
Qed.

(** A sweep that finds no monitored row leaves the store as it is. *)
Lemma empty_sweep_store schedule db :
  (MonitoredTransactions db).1 = [] ->
  store (CheckMonitoredTransactions schedule db) = db.
Proof.
  intros Hnil. apply map_eq. intros k.
  apply sweep_writes_snapshot_rows; rewrite Hnil;
    intros x Hx; by apply elem_of_nil in Hx.
Qed.

Lemma snapshot_only_monitored db r :
  keyed db -> only_monitored r db -> (MonitoredTransactions db).1 = [r].
Proof.
  intros Hdb (Hr & Hm & Honly).
  set (l := (MonitoredTransactions db).1).
  assert (NoDup l) as Hnd.
  { unfold l, MonitoredTransactions, Find. cbn [fst].
    eapply sublist_NoDup; [|apply sublist_filter].
    eapply NoDup_fmap_1, keyed_rows_NoDup, Hdb. }
  assert (forall y, y ∈ l <-> y ∈ [r]) as Hel.
  { intros y. rewrite list_elem_of_singleton. split.
    - intros [Hy [k Hk]]%MonitoredTransactions_spec.
      rewrite (Honly k y Hk Hy) in Hk. congruence.
    - intros ->. by apply (MonitoredTransactions_selects db (ID r)). }
  apply Permutation_singleton_r, NoDup_Permutation;
    [done|apply NoDup_singleton|done].
Qed.

Lemma snapshot_none_monitored db :
  (forall k x, db !! k = Some x -> Monitoring x = false) ->
  (MonitoredTransactions db).1 = [].
Proof.
  intros Hnone. destruct (MonitoredTransactions db).1 as [|x l] eqn:Hl; [done|].
  assert (x ∈ (MonitoredTransactions db).1) as Hx by (rewrite Hl; left).
  apply MonitoredTransactions_spec in Hx as [Hm [k Hk]].
  rewrite (Hnone k x Hk) in Hm. done.
Qed.

(** Sweeps over a store without monitored rows change nothing. *)
Lemma sweeps_none_monitored rounds : forall db,
  (forall k x, db !! k = Some x -> Monitoring x = false) ->
  sweeps rounds db = db.
Proof.
  induction rounds as [|schedule rounds IH]; intros db Hnone; [done|].
  cbn [main.sweeps].
  rewrite (empty_sweep_store schedule db) by (by apply snapshot_none_monitored).
  destruct (at_main _); [done|done|]. by apply IH.
Qed.

Lemma sweeps_app a : forall b db,
  returning a db -> sweeps (a ++ b) db = sweeps b (sweeps a db).
Proof.
  induction a as [|schedule a IH]; intros b db Hret; [done|].
  cbn [app main.sweeps retry.returning] in *. destruct Hret as [Hs Ha].
  rewrite Hs. by apply IH.
Qed.

Lemma returning_app a : forall b db,
  returning (a ++ b) db -> returning a db.
Proof.
  induction a as [|schedule a IH]; intros b db Hret; [done|].
  cbn [app retry.returning] in *. destruct Hret as [Hs Ha].
  split; [done|]. by eapply IH.
Qed.

Lemma returning_app_r a : forall b db,
  returning (a ++ b) db -> returning b (sweeps a db).
Proof.
  induction a as [|schedule a IH]; intros b db Hret; [done|].
  cbn [app retry.returning main.sweeps] in *. destruct Hret as [Hs Ha].
  rewrite Hs. by apply IH.
Qed.

(** The store after one returned sweep over the one monitored row [r], on a
    chain that reports its transaction pending. *)
Lemma pending_sweep_row schedule db r c tx :
  keyed db -> only_monitored r db -> ID r <> "" ->
  Clients !! Blockchain r = Some c ->
  TransactionByHash Hash c (HexToHash (ID r)) = Got (tx, true) ->
  let s := CheckMonitoredTransactions schedule db in
  at_main s = Returned ->
  keyed (store s)
  /\ store s !! ID r
     = Some (ChecksThreshold
               (mkTransaction (ID r) (Blockchain r) (Metadata r) true true
                  (GoInt.add (Checks r) 1) (Success r) (Reviewed r) (Error r)))
  /\ forall k, k <> ID r -> store s !! k = db !! k.
Proof.
  intros Hdb Honly Hid Hc Htx s Hret.
  pose proof (snapshot_only_monitored db r Hdb Honly) as Hsnap.
  unfold s in *. rewrite (single_sweep_store schedule db r Hsnap Hret).
  destruct Honly as (Hr & _). split_and!.
  - by apply CheckSuccess_keyed.
  - by apply (pending_pass_row HexToHash Clients env r db c tx).
  - intros k Hk.
    by apply (CheckSuccess_lookup_ne_nonempty HexToHash Clients env).
Qed.

(** The row still pending after [n] returned sweeps within the budget. *)
Lemma sweeps_pending rounds : forall r db c tx sc,
  keyed db -> only_monitored r db -> ID r <> "" ->
  Clients !! Blockchain r = Some c ->
  TransactionByHash Hash c (HexToHash (ID r)) = Got (tx, true) ->
  threshold = (sc, None) ->
  GoInt.int_min <= Checks r -> Checks r + Z.of_nat (length rounds) <= sc ->
  returning rounds db ->
  let r' := if rounds is [] then r else
            mkTransaction (ID r) (Blockchain r) (Metadata r) true true
              (Checks r + Z.of_nat (length rounds)) (Success r) (Reviewed r)
              (Error r) in
  keyed (sweeps rounds db) /\ only_monitored r' (sweeps rounds db).
Proof.
  induction rounds as [|schedule rounds IH];
    intros r db c tx sc Hdb Honly Hid Hc Htx Hsc Hmin Hle Hret; [done|].
  pose proof (strconvFacts.Atoi_in_range (os.Getenv env "CHECKS_THRESHOLD")) as Hmax.
  rewrite Hsc in Hmax. destruct Hmax as [_ Hmax]. simpl in Hmax.
  cbn [length] in Hle. cbn [retry.returning] in Hret. destruct Hret as [Hs Hrest].
  cbn [main.sweeps]. rewrite Hs.
  destruct (pending_sweep_row schedule db r c tx Hdb Honly Hid Hc Htx Hs)
    as (Hk1 & Hrow & Hother).
  rewrite (ChecksThreshold_within env _ sc) in Hrow;
    [|done|cbn [Checks]; rewrite GoIntFacts.add_1_exact; lia].
  rewrite GoIntFacts.add_1_exact in Hrow by lia.
  set (r1 := mkTransaction _ _ _ _ _ _ _ _ _) in Hrow.
  set (db1 := store (CheckMonitoredTransactions schedule db)) in *.
  assert (only_monitored r1 db1) as Honly1.
  { split_and!; [done|done|]. intros k x Hx Hm.
    destruct (decide (k = ID r)) as [->|Hk]; [done|].
    rewrite Hother in Hx by done. destruct Honly as (_ & _ & Ho).
    by destruct (Hk (Ho k x Hx Hm)). }
  destruct (IH r1 db1 c tx sc Hk1 Honly1 Hid Hc Htx Hsc) as [Hk2 Honly2];
    [cbn [Checks r1]; lia|cbn [Checks r1]; lia|done|].
  split; [done|].
  destruct rounds as [|schedule' rounds]; [done|].
  cbn [ID Blockchain Metadata Success Reviewed Error Checks r1] in Honly2.
  replace (Checks r + Z.of_nat (length (schedule :: schedule' :: rounds)))
    with (Checks r + 1 + Z.of_nat (length (schedule' :: rounds)))
    by (cbn [length]; lia).
  exact Honly2.
Qed.

(** X6. The retry budget.  A row with a non-empty id that is the only
    monitored row of its store, on a chain that keeps reporting its
    transaction pending, with the threshold [sc] configured below the
    largest integer and the counter [c] of the row at most [sc]: after each
    of the first [sc - c] sweeps that return, whatever their schedules, the
    row is pending and monitored with the counter one higher; the sweep
    after those abandons it with the counter at [sc + 1]; and the sweeps
    after that one leave the store as it is. *)
Theorem pending_row_retry_budget r db c tx sc rounds :
  keyed db -> only_monitored r db -> ID r <> "" ->
  Clients !! Blockchain r = Some c ->
  TransactionByHash Hash c (HexToHash (ID r)) = Got (tx, true) ->
  threshold = (sc, None) -> sc < GoInt.int_max ->
  GoInt.int_min <= Checks r <= sc ->
  returning rounds db ->
  let budget := Z.to_nat (sc - Checks r) in
  ((0 < length rounds <= budget)%nat ->
   sweeps rounds db !! ID r
   = Some (mkTransaction (ID r) (Blockchain r) (Metadata r) true true
             (Checks r + Z.of_nat (length rounds)) (Success r) (Reviewed r)
             (Error r)))
  /\ ((budget < length rounds)%nat ->
      sweeps rounds db !! ID r
      = Some (mkTransaction (ID r) (Blockchain r) (Metadata r) false false
                (sc + 1) false (Reviewed r) "exceeded checks threshold")
      /\ sweeps rounds db = sweeps (take (budget + 1) rounds) db).
Proof.
  intros Hdb Honly Hid Hc Htx Hsc Hlt [Hmin Hle] Hret budget. split.
  - intros [Hpos Hn].
    destruct (sweeps_pending rounds r db c tx sc) as [_ (Hrow & _)];
      try done; [unfold budget in Hn; lia|].
    destruct rounds as [|schedule rounds]; [simpl in Hpos; lia|]. exact Hrow.
  - intros Hn.
    rewrite <- (take_drop budget rounds) in Hret |- *.
    set (before := take budget rounds) in *.
    assert (length before = budget) as Hlen
      by (unfold before; rewrite length_take; lia).
    destruct (drop budget rounds) as [|schedule later] eqn:Hdrop.
    { apply (f_equal length) in Hdrop. rewrite length_drop in Hdrop.
      simpl in Hdrop. lia. }
    pose proof (returning_app before (schedule :: later) db Hret) as Hbefore.
    destruct (sweeps_pending before r db c tx sc) as [Hk1 Honly1];
      try done; [rewrite Hlen; unfold budget; lia|].
    set (r1 := if before is [] then r else _) in Honly1.
    set (db1 := sweeps before db) in *.
    assert (ID r1 = ID r /\ Blockchain r1 = Blockchain r
            /\ Metadata r1 = Metadata r /\ Reviewed r1 = Reviewed r
            /\ Checks r1 = sc)
      as (Hid1 & Hch1 & Hmd1 & Hrv1 & Hck1).
    { unfold r1. destruct before; cbn [length] in Hlen |- *;
        split_and!; try done; cbn [Checks]; unfold budget in Hlen; lia. }
    assert (returning (schedule :: later) db1) as Hlater
      by (by apply returning_app_r).
    cbn [retry.returning] in Hlater. destruct Hlater as [Hs _].
    destruct (pending_sweep_row schedule db1 r1 c tx) as (Hk2 & Hrow & Hother);
      [done|done|congruence|congruence|congruence|done|].
    set (db2 := store (CheckMonitoredTransactions schedule db1)) in *.
    assert (db2 !! ID r
            = Some (mkTransaction (ID r) (Blockchain r) (Metadata r) false false
                      (sc + 1) false (Reviewed r) "exceeded checks threshold"))
      as Hgone.
    { rewrite <- Hid1 at 1. rewrite Hrow. f_equal.
      unfold etx.ChecksThreshold. rewrite Hsc. cbn [Checks].
      rewrite Hck1, GoIntFacts.add_1_exact by lia.
      assert ((sc <? sc + 1) = true) as -> by (apply Z.ltb_lt; lia).
      cbv [set_Success set_Pending set_Monitoring set_Error]. cbn.
      f_equal; congruence. }
    assert (forall k x, db2 !! k = Some x -> Monitoring x = false) as Hnone.
    { intros k x Hx. destruct (decide (k = ID r)) as [->|Hk].
      - rewrite Hgone in Hx. by injection Hx as <-.
      - rewrite Hother in Hx by congruence.
        destruct (Monitoring x) eqn:Hm; [|done].
        destruct Honly1 as (_ & _ & Ho). rewrite (Ho k x Hx Hm) in Hk.
        congruence. }
    assert (sweeps (before ++ schedule :: later) db = db2) as Hall.
    { rewrite sweeps_app by done. fold db1. cbn [main.sweeps]. rewrite Hs.
      fold db2. by apply sweeps_none_monitored. }
    assert (take (budget + 1) (before ++ schedule :: later)
            = before ++ [schedule]) as Htake.
    { rewrite take_app_add'; [|done]. by destruct later. }
    rewrite Hall, Htake. split; [done|].
    rewrite sweeps_app by done. fold db1. cbn [main.sweeps]. rewrite Hs.
    done.
Qed.

End RetryBudget.

(** ** The life of a record, continued *)

Section LifecycleMore.
Import etx lifecycle main.

Context {Hash : Type} (HexToHash : string -> Hash).
Context (Clients : gmap string (Client Hash)) (env : gmap string string).

Implicit Types (db : gmap string Transaction) (t r : Transaction).

Local Abbreviation CheckSuccess := (etx.CheckSuccess Hash HexToHash Clients env).
Local Abbreviation engine_step := (lifecycle.engine_step Hash HexToHash Clients env).
Local Abbreviation reachable := (lifecycle.reachable Hash HexToHash Clients env).

Lemma CheckSuccess_pending_monitored t db :
  (Pending t = true -> Monitoring t = true) ->
  Pending (CheckSuccess t db).1.1 = true ->
  Monitoring (CheckSuccess t db).1.1 = true.
Proof.
  intros Ht. destruct (Clients !! Blockchain t) as [c|] eqn:Hc.
  - pose proof (CheckSuccess_monitoring_pending HexToHash Clients env t db c Hc)
      as Hflags.
    destruct (CheckSuccess t db) as [[t' db'] err]. simpl.
    destruct Hflags as [-> _]. done.
  - by rewrite CheckSuccess_not_found.
Qed.

Lemma reachable_pending_monitored db k r :
  reachable db -> db !! k = Some r ->
  Pending r = true -> Monitoring r = true.
Proof.
  intros Hreach. revert k r. revert db Hreach.
  apply (rtc_ind_r (fun db => forall k r, db !! k = Some r ->
                      Pending r = true -> Monitoring r = true)).
  - intros k r. by rewrite lookup_empty.
  - intros db db' _ Hstep Hdb k r.
    destruct Hstep as [t db Hs He|t b db Hrow Hmon|t db].
    + unfold New, Create. simpl. destruct (db !! ID t) eqn:Hk; simpl.
      * apply Hdb.
      * rewrite lookup_insert. case_decide; [|apply Hdb]. by intros [= <-].
    + intros [Hr|(r0 & Hr0 & ->)]%CheckSuccess_row; [by apply (Hdb k)|].
      rewrite assign_all_Save_columns. cbn [Pending Monitoring].
      apply CheckSuccess_pending_monitored. intros _. done.
    + unfold SetReviewed. cbn [fst]. rewrite Update_lookup.
      case_decide; [|apply Hdb].
      destruct (db !! k) as [r0|] eqn:Hk; [|done]. intros [= <-].
      specialize (Hdb _ _ Hk). by destruct r0.
Qed.

(** X25. In every store reached by creations, passes and mark-reviewed, a
    row is stored under its own id, a monitored row has no success flag and
    no error text, and a pending row is monitored. *)
Theorem reachable_rows_are_consistent db k r :
  reachable db -> db !! k = Some r ->
  ID r = k
  /\ (Monitoring r = true -> Success r = false /\ Error r = "")
  /\ (Pending r = true -> Monitoring r = true).
Proof.
  intros Hreach Hr. split_and!.
  - by apply (reachable_keyed HexToHash Clients env db Hreach).
  - by apply (reachable_clean HexToHash Clients env db Hreach k r).
  - by apply (reachable_pending_monitored db k r).
Qed.

(** No operation deletes a row. *)
Lemma engine_step_is_Some db db' j :
  engine_step db db' -> is_Some (db !! j) -> is_Some (db' !! j).
Proof.
  intros Hstep Hj. destruct Hstep as [t db Hs He|t b db Hrow Hmon|t db].
  - unfold New, Create. simpl. destruct (db !! ID t) eqn:Hk; simpl; [done|].
    rewrite lookup_insert. by case_decide.
  - apply elem_of_dom. rewrite (CheckSuccess_dom HexToHash Clients env).
    by apply elem_of_dom.
  - unfold SetReviewed. cbn [fst]. apply elem_of_dom. rewrite Update_dom.
    by apply elem_of_dom.
Qed.

Lemma engine_steps_is_Some db db' j :
  rtc engine_step db db' -> is_Some (db !! j) -> is_Some (db' !! j).
Proof.
  induction 1 as [db|db db1 db' Hstep _ IH]; [done|].
  intros Hj. by apply IH, (engine_step_is_Some db).
Qed.

Lemma engine_step_finished db db' k r :
  engine_step db db' -> db !! "" = None ->
  db !! k = Some r -> Monitoring r = false ->
  exists b, db' !! k = Some (set_Reviewed b r).
Proof.
  intros Hstep Hempty Hr Hm.
  assert (set_Reviewed (Reviewed r) r = r) as Hsame by (by destruct r).
  destruct Hstep as [t db Hs He|t b db Hrow Hmon|t db].
  - exists (Reviewed r). rewrite Hsame. unfold New, Create. simpl.
    destruct (db !! ID t) eqn:Hk; simpl; [done|].
    rewrite lookup_insert_ne; [done|]. intros Heq. rewrite Heq in Hk.
    congruence.
  - exists (Reviewed r). rewrite Hsame.
    rewrite CheckSuccess_lookup_ne_nonempty; [done| |].
    + intros Hid. rewrite Hid in Hrow. congruence.
    + intros <-. rewrite Hrow in Hr. injection Hr as <-. simpl in Hm.
      congruence.
  - unfold SetReviewed. cbn [fst]. rewrite Update_lookup, Hr.
    case_decide; [by exists (Reviewed t)|].
    exists (Reviewed r). by rewrite Hsame.
Qed.

(** X26. A row that is no longer monitored is final: whatever creations,
    passes and mark-reviewed follow, as long as no record is created with
    the empty id, its success, pending and error fields and its counter stay
    as they are; only its reviewed flag can change. *)
Theorem finished_rows_are_final db db' k r :
  rtc engine_step db db' -> db' !! "" = None ->
  db !! k = Some r -> Monitoring r = false ->
  exists b, db' !! k = Some (set_Reviewed b r).
Proof.
  intros Hsteps. revert r.
  induction Hsteps as [db|db db1 db' Hstep Hrest IH]; intros r Hempty Hr Hm.
  - exists (Reviewed r). by destruct r.
  - assert (forall m, rtc engine_step m db' -> m !! "" = None) as Hnone.
    { intros m Hm'. destruct (m !! "") eqn:Hm0; [|done].
      destruct (engine_steps_is_Some m db' "" Hm') as [? ?]; [by eexists|].
      congruence. }
    destruct (engine_step_finished db db1 k r Hstep) as [b Hb]; [|done..|].
    { apply Hnone. by eapply rtc_l. }
    destruct (IH _ Hempty Hb Hm) as [b' Hb']. by exists b'.
Qed.

End LifecycleMore.

(** ** Creating a record and fetching it back *)

Section RoundTrip.
Import etx main.

Context (Find_nil : gmap string Transaction -> list Transaction).

Implicit Types (db : gmap string Transaction) (t x : Transaction).

Lemma Find_by_ID db id x :
  keyed db -> db !! id = Some x -> id <> "" ->
  Find (mkTransaction id "" ∅ false false 0 false false "") db = [x].
Proof.
  intros Hdb Hx Hid.
  set (l := Find _ db).
  assert (NoDup l) as Hnd.
  { eapply sublist_NoDup; [|apply sublist_filter].
    eapply NoDup_fmap_1, keyed_rows_NoDup, Hdb. }
  assert (forall y, y ∈ l <-> y ∈ [x]) as Hel.
  { intros y. unfold l, Find. rewrite list_elem_of_filter, list_elem_of_singleton.
    split.
    - intros [Hw ([k y'] & -> & Hky)%list_elem_of_fmap].
      apply elem_of_map_to_list in Hky. simpl in *.
      unfold where_struct, cond_field in Hw. simpl in Hw.
      repeat (apply andb_prop in Hw as [Hw ?]).
      rewrite bool_decide_eq_false_2 in Hw by done. simpl in Hw.
      apply bool_decide_eq_true in Hw.
      rewrite <- (Hdb _ _ Hky), Hw, Hx in Hky. by injection Hky.
    - intros ->. split.
      + unfold where_struct, cond_field. simpl.
        rewrite (Hdb _ _ Hx). rewrite (bool_decide_eq_true_2 (id = id)) by done.
        rewrite (bool_decide_eq_true_2 (∅ = ∅)) by done.
        by rewrite orb_true_r.
      + apply list_elem_of_fmap. exists (id, x). split; [done|].
        by apply elem_of_map_to_list. }
  apply Permutation_singleton_r, NoDup_Permutation; [done|apply NoDup_singleton|done].
Qed.

(** X27. A record created by [POST /transaction] under a free, non-empty id
    is fetched back by [POST /transactions] with that id as the only member
    of the filter: the answer is 200 with exactly that record, monitoring
    true, whatever the page size asked for, on the first page. *)
Theorem created_record_is_fetched_back db t (create query : Request) :
  keyed db -> db !! ID t = None -> ID t <> "" ->
  body create = Decoded t ->
  body query = Decoded (mkTransaction (ID t) "" ∅ false false 0 false false "") ->
  Offset (Paginate query) <= 0 ->
  let '(resp, db') := HandleNewTransaction create db in
  resp = Respond 200 (Text "")
  /\ HandleGetTransactions Find_nil query db' = Rows 200 [set_Monitoring true t].
Proof.
  intros Hdb Hfree Hid Hcreate Hquery Hoff.
  unfold HandleNewTransaction, main.HandleGetTransactions, New, Create.
  rewrite Hcreate, Hquery. cbn [ID set_Monitoring]. rewrite Hfree.
  split; [done|]. f_equal.
  rewrite (Find_by_ID _ (ID t) (set_Monitoring true t)); [| |apply lookup_insert_eq|done].
  - unfold Scopes. replace (Z.to_nat (Offset (Paginate query))) with 0%nat by lia.
    rewrite drop_0. apply take_ge. cbn [length].
    pose proof (Paginate_Limit query). lia.
  - intros k r. rewrite lookup_insert. case_decide; [|apply Hdb].
    by intros [= <-].
Qed.

End RoundTrip.

(** ** The sweep when the whole snapshot is queued first *)

Section QueuedFirst.
Import etx scheduling.

Context {Hash : Type} (HexToHash : string -> Hash).
Context (Clients : gmap string (Client Hash)) (env : gmap string string).

Implicit Types (db : gmap string Transaction) (t r : Transaction) (s : sweep).

Local Abbreviation CheckSuccess := (etx.CheckSuccess Hash HexToHash Clients env).
Local Abbreviation step := (etx.step Hash HexToHash Clients env).
Local Abbreviation run := (etx.run Hash HexToHash Clients env).
Local Abbreviation CheckMonitoredTransactions :=
  (etx.CheckMonitoredTransactions Hash HexToHash Clients env).

Lemma run_app a b s : run (a ++ b) s = run b (run a s).
Proof. revert s. induction a as [|g a IH]; intros s; simpl; [done|apply IH]. Qed.

(** The main goroutine ranging over what is left of the snapshot. *)
Lemma run_queue rest : forall s,
  at_main s = Ranging rest -> length (mem s) = 1%nat ->
  let s' := run (replicate (length rest) Main) s in
  at_main s' = Ranging []
  /\ tin s' = tin s ++ replicate (length rest) loop_var
  /\ mem s' !! loop_var = from_option Some (mem s !! loop_var) (last rest)
  /\ length (mem s') = 1%nat
  /\ store s' = store s /\ tout s' = tout s /\ tin_closed s' = tin_closed s
  /\ len_txs s' = len_txs s /\ exited s' = exited s /\ passes s' = passes s.
Proof.
  induction rest as [|x rest IH]; intros s Hat Hmem.
  - simpl. rewrite app_nil_r. by split_and!.
  - cbn [length replicate etx.run etx.step]. unfold main_step. rewrite Hat.
    cbn [default from_option id].
    match goal with |- context [etx.run _ _ _ _ _ ?st] => set (s1 := st) end.
    destruct (IH s1 eq_refl) as (H1 & H2 & H3 & H4 & H5 & H6 & H7 & H8 & H9 & H10).
    { unfold s1. cbn. by rewrite length_insert. }
    cbv zeta. split_and!; try done.
    + rewrite H2. unfold s1. cbn. by rewrite <- app_assoc.
    + rewrite H3. unfold s1. cbn [mem].
      rewrite list_lookup_insert_eq by (unfold loop_var; lia).
      rewrite last_cons. by destruct (last rest).
Qed.

(** One worker taking every queue entry in turn, each the address of the
    loop variable. *)
Lemma run_worker n : forall s x,
  tin s = replicate n loop_var -> mem s !! loop_var = Some x ->
  0%nat ∉ exited s ->
  let s' := run (replicate n (Worker 0)) s in
  tin s' = []
  /\ tout s' = tout s ++ replicate n loop_var
  /\ passes s' = passes s ++ replicate n (ID x)
  /\ at_main s' = at_main s /\ len_txs s' = len_txs s.
Proof.
  induction n as [|n IH]; intros s x Htin Hmem Hex.
  - simpl. rewrite !app_nil_r. by split_and!.
  - cbn [replicate etx.run etx.step]. unfold etx.worker_step.
    rewrite decide_True by (split; [unfold workers; lia|done]).
    rewrite Htin. cbn [replicate]. rewrite Hmem.
    pose proof (CheckSuccess_ID HexToHash Clients env x (store s)) as Hid.
    destruct (etx.CheckSuccess _ _ _ _ x (store s)) as [[t' db'] err].
    cbn [default from_option id]. simpl in Hid.
    match goal with |- context [etx.run _ _ _ _ _ ?st] => set (s1 := st) end.
    destruct (IH s1 t') as (H1 & H2 & H3 & H4 & H5); [done| |done|].
    { unfold s1. cbn [mem]. apply list_lookup_insert_eq.
      by apply lookup_lt_Some in Hmem. }
    cbv zeta. split_and!; try done.
    + rewrite H2. unfold s1. cbn. by rewrite <- app_assoc.
    + rewrite H3, Hid. unfold s1. cbn. by rewrite <- app_assoc.
Qed.

(** The main goroutine collecting the results, then returning. *)
Lemma run_collect n : forall s i,
  at_main s = Receiving i -> (i + n = len_txs s)%nat ->
  length (tout s) = n ->
  let s' := run (replicate (S n) Main) s in
  at_main s' = Returned /\ passes s' = passes s.
Proof.
  induction n as [|n IH]; intros s i Hat Hlen Hout.
  - cbn [replicate etx.run etx.step]. unfold main_step. rewrite Hat.
    rewrite decide_False by lia. done.
  - change (replicate (S (S n)) Main) with (Main :: replicate (S n) Main).
    destruct (tout s) as [|q out] eqn:Htout; [done|].
    assert (step Main s
            = Some (mkSweep (store s) (mem s) (tin s) (tin_closed s) out
                      (len_txs s) (Receiving (S i)) (exited s) (passes s)))
      as Hstep.
    { simpl. unfold main_step. rewrite Hat, decide_True by lia.
      by rewrite Htout. }
    cbn [etx.run]. rewrite Hstep. cbn [default from_option id].
    match goal with |- context [etx.run _ _ _ _ _ ?st] => set (s1 := st) end.
    destruct (IH s1 (S i)) as [A B]; unfold s1; cbn; [done|lia| |done].
    simpl in Hout. lia.
Qed.

(** X28. When the main goroutine queues the whole snapshot and closes the
    queue before a worker takes an entry, the sweep returns after as many
    passes as there are records, and every one of those passes is on the
    last record of the snapshot: all queue entries are the address of the
    one loop variable, which holds that record by then. *)
Theorem queued_first_sweep_hits_last_record db x :
  last (MonitoredTransactions db).1 = Some x ->
  let n := length (MonitoredTransactions db).1 in
  let s := CheckMonitoredTransactions (queue_all_first n) db in
  at_main s = Returned /\ passes s = replicate n (ID x).
Proof.
  intros Hlast n s. unfold s, etx.CheckMonitoredTransactions, queue_all_first.
  rewrite !run_app.
  set (s0 := sweep_start db).
  assert (len_txs s0 = n /\ tin s0 = [] /\ tout s0 = [] /\ exited s0 = ∅
          /\ passes s0 = []) as (Hn & T1 & T2 & T3 & T4) by done.
  destruct (run_queue (MonitoredTransactions db).1 s0 eq_refl eq_refl)
    as (Q1 & Q2 & Q3 & Q4 & Q5 & Q6 & Q7 & Q8 & Q9 & Q10).
  fold n in Q1, Q2, Q3, Q4, Q5, Q6, Q7, Q8, Q9, Q10.
  rewrite Hlast in Q3. cbn [from_option] in Q3.
  rewrite T1 in Q2. rewrite T2 in Q6. rewrite T3 in Q9. rewrite T4 in Q10.
  rewrite Hn in Q8. cbn [app] in Q2.
  clearbody n s0.
  set (s1 := run (replicate n Main) s0) in *.
  assert (run [Main] s1
          = mkSweep (store s1) (mem s1) (tin s1) true (tout s1) (len_txs s1)
              (Receiving 0) (exited s1) (passes s1)) as ->.
  { cbn [etx.run etx.step]. unfold main_step. by rewrite Q1. }
  set (s2 := mkSweep _ _ _ _ _ _ _ _ _).
  destruct (run_worker n s2 x) as (W1 & W2 & W3 & W4 & W5); [done|done|..].
  { unfold s2. cbn [exited]. rewrite Q9. apply not_elem_of_empty. }
  set (s3 := run (replicate n (Worker 0)) s2) in *.
  unfold s2 in W2, W3, W4, W5. cbn [tout passes at_main len_txs] in W2, W3, W4, W5.
  rewrite Q6 in W2. rewrite Q10 in W3. rewrite Q8 in W5. cbn [app] in W2, W3.
  destruct (run_collect n s3 0%nat W4) as [C1 C2].
  - by rewrite W5.
  - rewrite W2. apply length_replicate.
  - split; [done|]. by rewrite C2.
Qed.

End QueuedFirst.

(** ** The further properties on concrete inputs *)

Section ConcreteMore.
Import etx lifecycle retry scheduling main gostrings scenario.

Local Abbreviation CheckSuccess := (etx.CheckSuccess string HexToHash).
Local Abbreviation CheckMonitoredTransactions :=
  (etx.CheckMonitoredTransactions string HexToHash).

Lemma keyed_empty : keyed ∅.
Proof. intros k r. by rewrite lookup_empty. Qed.

Lemma keyed_insert db r : keyed db -> keyed (<[ID r := r]> db).
Proof.
  intros Hdb k x. rewrite lookup_insert. case_decide; [|apply Hdb].
  by intros [= <-].
Qed.

Lemma keyed_two_rows : keyed two_rows.
Proof.
  apply (keyed_insert _ (record "0xa" "eth" 0)).
  apply (keyed_insert _ (record "0xb" "eth" 0)), keyed_empty.
Qed.

Lemma threshold_unset_disables_abandonment_witness :
  etx.ChecksThreshold ∅ (tx_abc 1000) = tx_abc 1000
  /\ etx.Save ∅ (tx_abc 1000) ∅
     = (tx_abc 1000, Updates "0xabc" (Save_columns (tx_abc 1000)) ∅).
Proof.
  apply (threshold_unset_disables_abandonment ∅ (tx_abc 1000) ∅).
  vm_compute. discriminate.
Defined.

Lemma pass_monitors_what_is_pending_witness :
  let '(t', db', _) :=
    CheckSuccess pending threshold_5 (tx_abc 0) {["0xabc" := tx_abc 0]} in
  Monitoring t' = Pending t'
  /\ Monitoring <$> db' !! "0xabc" = Pending <$> db' !! "0xabc".
Proof.
  pose proof (pass_monitors_what_is_pending HexToHash pending threshold_5
                (tx_abc 0) {["0xabc" := tx_abc 0]} chain_pending eq_refl) as H.
  destruct (CheckSuccess pending threshold_5 (tx_abc 0) {["0xabc" := tx_abc 0]})
    as [[t' db'] err].
  destruct H as (H1 & _ & H3). split; [exact H1|]. apply H3. discriminate.
Defined.

Lemma success_needs_positive_receipt_witness :
  exists c tx rc,
    mined !! "eth" = Some c
    /\ TransactionByHash string c "0xabc" = Got (tx, false)
    /\ TransactionReceipt string c (Tx_Hash string tx) = Got rc
    /\ (0 < Status rc)%N
    /\ (forall sc,
         strconv.Atoi (os.Getenv threshold_5 "CHECKS_THRESHOLD") = (sc, None) ->
         GoInt.add 0 1 <= sc).
Proof.
  apply (success_needs_positive_receipt HexToHash mined threshold_5
           (tx_abc 0) {["0xabc" := tx_abc 0]}); reflexivity.
Defined.

Lemma pass_touches_one_row_witness :
  (CheckSuccess mined threshold_5 (record "0xa" "eth" 0) two_rows).1.2 !! "0xb"
  = two_rows !! "0xb"
  /\ dom (CheckSuccess mined threshold_5 (record "0xa" "eth" 0) two_rows).1.2
     = dom two_rows.
Proof.
  pose proof (pass_touches_one_row HexToHash mined threshold_5
                (record "0xa" "eth" 0) two_rows "0xb") as (_ & H2 & H3).
  split; [|exact H3]. apply H2; discriminate.
Defined.

Lemma next_sweep_selects_pending_witness :
  let db' := (CheckSuccess mined threshold_5 (record "0xa" "eth" 0) two_rows).1.2 in
  exists r', db' !! "0xa" = Some r'
    /\ (r' ∈ (MonitoredTransactions db').1 <-> Pending r' = true).
Proof.
  apply (next_sweep_selects_pending HexToHash mined threshold_5
           (record "0xa" "eth" 0) two_rows chain_mined (record "0xa" "eth" 0)).
  - apply keyed_two_rows.
  - discriminate.
  - reflexivity.
  - reflexivity.
Defined.

Lemma only_monitored_singleton r :
  Monitoring r = true -> only_monitored r {[ID r := r]}.
Proof.
  intros Hm. split_and!; [apply lookup_singleton_eq|done|].
  by intros k x [<- _]%lookup_singleton_Some _.
Qed.

Lemma pending_row_retry_budget_witness :
  let r := tx_abc 3 in
  let db : gmap string Transaction := {["0xabc" := r]} in
  let round := [Main; Main; Worker 0; Main; Main] in
  main.sweeps string HexToHash pending threshold_5 [round; round] db !! "0xabc"
  = Some (mkTransaction "0xabc" "eth" ∅ true true 5 false false "")
  /\ main.sweeps string HexToHash pending threshold_5
       [round; round; round; round] db !! "0xabc"
     = Some (mkTransaction "0xabc" "eth" ∅ false false 6 false false
               "exceeded checks threshold")
  /\ main.sweeps string HexToHash pending threshold_5
       [round; round; round; round] db
     = main.sweeps string HexToHash pending threshold_5 [round; round; round] db.
Proof.
  intros r db round.
  assert (keyed db) as Hdb by apply (keyed_insert ∅ r), keyed_empty.
  assert (only_monitored r db) as Honly by (by apply only_monitored_singleton).
  assert (GoInt.int_min <= Checks r <= 5) as Hck
    by (unfold GoInt.int_min; cbn [Checks r tx_abc record]; lia).
  pose proof (pending_row_retry_budget HexToHash pending threshold_5 r db
                chain_pending (mkTx string "0xabc") 5 [round; round]
                Hdb Honly ltac:(discriminate) eq_refl eq_refl eq_refl eq_refl
                Hck ltac:(vm_compute; by split_and!)) as [H1 _].
  pose proof (pending_row_retry_budget HexToHash pending threshold_5 r db
                chain_pending (mkTx string "0xabc") 5
                [round; round; round; round]
                Hdb Honly ltac:(discriminate) eq_refl eq_refl eq_refl eq_refl
                Hck ltac:(vm_compute; by split_and!)) as [_ H2].
  split; [|split].
  - apply H1. cbn [length Checks r tx_abc record]. lia.
  - apply H2. cbn [length Checks r tx_abc record]. lia.
  - apply H2. cbn [length Checks r tx_abc record]. lia.
Defined.

Lemma new_never_overwrites_witness :
  let '(_, db1, _) := New (tx_abc 0) ∅ in
  let '(_, db2, err) := New (tx_abc 7) db1 in
  err <> None /\ db2 = db1.
Proof. apply (new_never_overwrites (tx_abc 0) (tx_abc 7) ∅). reflexivity. Defined.

Lemma created_record_is_swept_witness :
  let t := mkTransaction "0xabc" "eth" ∅ false false 0 false true "" in
  let '(_, db', err) := New t two_rows in
  err = None
  /\ db' !! ID t = Some (set_Monitoring true t)
  /\ set_Monitoring true t ∈ (MonitoredTransactions db').1
  /\ ("0xa" <> ID t -> db' !! "0xa" = two_rows !! "0xa")
  /\ (keyed two_rows -> keyed db').
Proof.
  intros t. apply (created_record_is_swept t two_rows "0xa"). reflexivity.
Defined.

Lemma snapshot_is_monitored_rows_witness :
  (record "0xa" "eth" 0 ∈ (MonitoredTransactions two_rows).1
   <-> two_rows !! "0xa" = Some (record "0xa" "eth" 0)
       /\ Monitoring (record "0xa" "eth" 0) = true)
  /\ NoDup (ID <$> (MonitoredTransactions two_rows).1).
Proof.
  apply (snapshot_is_monitored_rows two_rows (record "0xa" "eth" 0)).
  apply keyed_two_rows.
Defined.

Lemma reviewed_row_stays_in_snapshot_witness :
  let t := mkTransaction "0xa" "" ∅ false false 0 false true "" in
  let db' := (SetReviewed t two_rows).1 in
  db' !! "0xa" = Some (set_Reviewed true (record "0xa" "eth" 0))
  /\ exists b, set_Reviewed b (record "0xb" "eth" 0)
                ∈ (MonitoredTransactions db').1.
Proof.
  intros t db'.
  pose proof (reviewed_row_stays_in_snapshot t two_rows "0xa"
                (record "0xa" "eth" 0) eq_refl eq_refl) as [_ H1].
  pose proof (reviewed_row_stays_in_snapshot t two_rows "0xb"
                (record "0xb" "eth" 0) eq_refl eq_refl) as [(b & _ & H2) _].
  split; [apply H1; [discriminate|reflexivity]|by exists b].
Defined.



Lemma returned_sweep_made_all_passes_witness :
  let s := CheckMonitoredTransactions pending threshold_5 queue_first two_rows in
  length (passes s) = length (MonitoredTransactions two_rows).1
  /\ (forall id, id ∈ passes s ->
      id ∈ ID <$> (MonitoredTransactions two_rows).1)
  /\ tin s = [] /\ tout s = [].
Proof.
  apply (returned_sweep_made_all_passes HexToHash pending threshold_5
           queue_first two_rows).
  vm_compute. reflexivity.
Defined.

Lemma single_record_sweep_is_exact_witness :
  let db : gmap string Transaction := {["0xabc" := tx_abc 0]} in
  passes (CheckMonitoredTransactions pending threshold_5
            [Main; Main; Worker 0; Main; Main] db) = ["0xabc"].
Proof.
  intros db.
  apply (single_record_sweep_is_exact HexToHash pending threshold_5
           [Main; Main; Worker 0; Main; Main] db (tx_abc 0)).
  - vm_compute. reflexivity.
  - vm_compute. reflexivity.
Defined.

Lemma sweep_never_deadlocks_witness :
  let s := CheckMonitoredTransactions pending threshold_5 [Main; Main; Main]
             two_rows in
  is_Some (etx.step string HexToHash pending threshold_5 Main s)
  \/ is_Some (etx.step string HexToHash pending threshold_5 (Worker 0) s).
Proof.
  apply (sweep_never_deadlocks HexToHash pending threshold_5
           [Main; Main; Main] two_rows).
  vm_compute. discriminate.
Defined.

Lemma sweep_terminates_witness :
  (length queue_first <= 3 * length (MonitoredTransactions two_rows).1 + 12)%nat.
Proof.
  apply (sweep_terminates HexToHash pending threshold_5 queue_first two_rows).
  vm_compute. exact I.
Defined.

Lemma sweep_keeps_frame_witness :
  keyed (store (CheckMonitoredTransactions pending threshold_5 queue_first
                  two_rows)).
Proof.
  pose proof (sweep_keeps_frame HexToHash pending threshold_5 queue_first
                two_rows "0xa") as (_ & _ & H).
  apply H, keyed_two_rows.
Defined.

Lemma query_rows_match_filter_witness :
  let t := mkTransaction "" "eth" ∅ true false 0 false false "" in
  let req := mkRequest (Decoded t) ∅ ∅ in
  exists ot,
    main.HandleGetTransactions (fun _ => []) req two_rows = Rows 200 ot
    /\ (forall x, x ∈ ot ->
          (exists k, two_rows !! k = Some x)
          /\ (ID t <> "" -> ID x = ID t)
          /\ (Blockchain t <> "" -> Blockchain x = Blockchain t)
          /\ (Metadata t <> ∅ -> Metadata x = Metadata t)
          /\ (Monitoring t = true -> Monitoring x = true)
          /\ (Pending t = true -> Pending x = true)
          /\ (Checks t <> 0 -> Checks x = Checks t)
          /\ (Success t = true -> Success x = true)
          /\ (Reviewed t = true -> Reviewed x = true)
          /\ (Error t <> "" -> Error x = Error t)).
Proof.
  intros t req.
  apply (query_rows_match_filter (fun _ => []) req two_rows t). reflexivity.
Defined.

Lemma health_check_reports_failures_witness :
  main.HandleHealthCheck string (fun _ => Got 1) mined
  = Respond 200 (Text "healthy").
Proof.
  pose proof (health_check_reports_failures (fun _ : Client string => Got 1)
                mined) as [[_ H] _].
  apply H. intros name c _. by exists 1.
Defined.

Lemma malformed_endpoint_is_fatal_witness :
  main.init_Clients string (fun _ => Got chain_mined)
    {["ETH_ENDPOINTS" := "main=http://a:8545 , test = http://b=1"]}
  = Fatal "ETH_ENDPOINTS must be in the form of '<name>=<endpoint>'".
Proof.
  apply (malformed_endpoint_is_fatal (fun _ => Got chain_mined)
           {["ETH_ENDPOINTS" := "main=http://a:8545 , test = http://b=1"]}
           ["main=http://a:8545 "] " test = http://b=1" []).
  - vm_compute. reflexivity.
  - intros e' He'. apply list_elem_of_singleton in He'. subst e'.
    exists "main", "http://a:8545", chain_mined. split; vm_compute; reflexivity.
  - vm_compute. lia.
Defined.

Lemma endpoints_fill_the_registry_witness :
  let env : gmap string string :=
    {["ETH_ENDPOINTS" := "eth=http://a, poly = http://b"]} in
  let Clients : gmap string (Client string) :=
    <["poly" := chain_mined]> {["eth" := chain_mined]} in
  (exists c, GetBlockchainClient string Clients "poly" = Ok c)
  <-> exists e s0 s1,
        e ∈ Split (os.Getenv env "ETH_ENDPOINTS") ","%char
        /\ Split (TrimSpace e) "="%char = [s0; s1]
        /\ "poly" = TrimSpace s0.
Proof.
  intros env Clients.
  pose proof (endpoints_fill_the_registry (fun _ => Got chain_mined) env
                Clients "poly") as H.
  apply H. vm_compute. reflexivity.
Defined.


Lemma reachable_rows_are_consistent_witness :
  let db := (CheckSuccess pending threshold_5 (tx_abc 0)
               (New (record "0xabc" "eth" 0) ∅).1.2).1.2 in
  let r := mkTransaction "0xabc" "eth" ∅ true true 1 false false "" in
  db !! "0xabc" = Some r
  /\ ID r = "0xabc"
  /\ (Monitoring r = true -> Success r = false /\ Error r = "")
  /\ (Pending r = true -> Monitoring r = true).
Proof.
  intros db r. split; [vm_compute; reflexivity|].
  apply (reachable_rows_are_consistent HexToHash pending threshold_5 db);
    [|vm_compute; reflexivity].
  eapply rtc_l; [apply (step_create _ _ _ _ (record "0xabc" "eth" 0) ∅);
                 reflexivity|].
  eapply rtc_l; [|apply rtc_refl].
  apply (step_pass _ _ _ _ (tx_abc 0) false); reflexivity.
Defined.

Lemma finished_rows_are_final_witness :
  let finished := mkTransaction "0xb" "eth" ∅ false false 3 true false "" in
  let db : gmap string Transaction := {["0xb" := finished]} in
  let mark := mkTransaction "0xb" "" ∅ false false 0 false true "" in
  exists b, (SetReviewed mark db).1 !! "0xb" = Some (set_Reviewed b finished).
Proof.
  intros finished db mark.
  apply (finished_rows_are_final HexToHash mined threshold_5 db
           (SetReviewed mark db).1 "0xb" finished); [|reflexivity..].
  apply rtc_once, step_reviewed.
Defined.

Lemma created_record_is_fetched_back_witness :
  let t := mkTransaction "0xabc" "eth" ∅ false false 0 false false "" in
  let create := mkRequest (Decoded t) ∅ ∅ in
  let query :=
    mkRequest (Decoded (mkTransaction "0xabc" "" ∅ false false 0 false false ""))
      ∅ ∅ in
  let '(resp, db') := HandleNewTransaction create two_rows in
  resp = Respond 200 (Text "")
  /\ main.HandleGetTransactions (fun _ => []) query db'
     = Rows 200 [set_Monitoring true t].
Proof.
  intros t create query.
  apply (created_record_is_fetched_back (fun _ => []) two_rows t create query);
    [apply keyed_two_rows|reflexivity|intros [=]|reflexivity|reflexivity|].
  vm_compute. intros [=].
Defined.

Lemma queued_first_sweep_hits_last_record_witness :
  let s := CheckMonitoredTransactions pending threshold_5
             (queue_all_first 2) two_rows in
  at_main s = Returned /\ passes s = replicate 2 "0xb".
Proof.
  apply (queued_first_sweep_hits_last_record HexToHash pending threshold_5
           two_rows (record "0xb" "eth" 0)).
  vm_compute. reflexivity.
Defined.

End ConcreteMore.
